(** * vehicle-intel: the lookup orchestration and normalization layer

    A shallow embedding of [src/index.ts]: the upstream client ([fetchJSON]),
    the record normalizer ([cleanVinResults]) and the handlers of the
    entrypoints [decode-vin], [recalls-by-vin], [models], [complaints] and
    [compare].

    Modelling conventions.
    - A JavaScript object used as a string-keyed dictionary is the
      [gmap string _] of its own properties; an assignment to it is
      [set_property].  The handlers read keys that [Object.prototype] does
      not define, so reading an absent key ([undefined]) is [None].
    - Strings are [string]s: text in UTF-8, one character of the model for
      each byte, so that ASCII text has one character for each JavaScript
      character.  [encodeURIComponent] escapes such text byte by byte.
    - [String.prototype.toUpperCase] and [toLowerCase] follow the Unicode
      case mappings, whose tables are no part of the program: they are the
      methods of the class [StringBuiltins], of which the model knows the
      effect on ASCII text only.  Everything that depends on them is stated
      for every instance of the class; [ascii_builtins] is the instance the
      sample data are run with.
    - An upstream endpoint is a function from the requested URL to what
      [fetch] yields for it: a rejected promise, or a response with a status
      and a body of the shape the endpoint documents.  Optional members of a
      body are [option]s.
    - An asynchronous computation is a value of [Async]: the URLs it
      requested, and whether it returned or raised.
    - [new Date().toISOString()] is the parameter [now]. *)

From Stdlib Require Import ZArith List Bool Lia Ascii String.
From stdpp Require Import base option list strings gmap pretty.

Local Open Scope Z_scope.

(** ** JavaScript string builtins *)

Definition char_code (c : ascii) : Z := Z.of_N (N_of_ascii c).
Definition from_char_code (z : Z) : ascii := ascii_of_N (Z.to_N z).

Definition upper_char (c : ascii) : ascii :=
  let n := char_code c in
  if (97 <=? n) && (n <=? 122) then from_char_code (n - 32) else c.

Definition lower_char (c : ascii) : ascii :=
  let n := char_code c in
  if (65 <=? n) && (n <=? 90) then from_char_code (n + 32) else c.

Fixpoint map_chars (f : ascii → ascii) (s : string) : string :=
  match s with
  | EmptyString => EmptyString
  | String c s' => String (f c) (map_chars f s')
  end.

(** The case mappings of ASCII text: only the letters [a-z] and [A-Z]
    change. *)
Definition ascii_toUpperCase (s : string) : string := map_chars upper_char s.
Definition ascii_toLowerCase (s : string) : string := map_chars lower_char s.

Fixpoint all_chars (p : ascii → bool) (s : string) : bool :=
  match s with
  | EmptyString => true
  | String c s' => p c && all_chars p s'
  end.

Definition is_ascii (s : string) : bool :=
  all_chars (λ c, char_code c <? 128) s.

Definition is_lower_letter (c : ascii) : bool :=
  (97 <=? char_code c) && (char_code c <=? 122).

Definition is_upper_letter (c : ascii) : bool :=
  (65 <=? char_code c) && (char_code c <=? 90).

(** [s.toUpperCase()] and [s.toLowerCase()].  On ASCII text they are the
    mappings above; on other text they are whatever the Unicode tables of
    the JavaScript engine make them. *)
Class StringBuiltins := {
  toUpperCase : string → string;
  toLowerCase : string → string;
  toUpperCase_ascii :
    ∀ s, is_ascii s = true → toUpperCase s = ascii_toUpperCase s;
  toLowerCase_ascii :
    ∀ s, is_ascii s = true → toLowerCase s = ascii_toLowerCase s
}.

(** The builtins that map the ASCII letters and leave every other character
    as it is. *)
Definition ascii_builtins : StringBuiltins :=
  {| toUpperCase := ascii_toUpperCase;
     toLowerCase := ascii_toLowerCase;
     toUpperCase_ascii := λ _ _, eq_refl;
     toLowerCase_ascii := λ _ _, eq_refl |}.

(** [A-Z a-z 0-9 - _ . ! ~ * ' ( )] are left unescaped. *)
Definition uri_unreserved (c : ascii) : bool :=
  let n := char_code c in
  ((65 <=? n) && (n <=? 90)) || ((97 <=? n) && (n <=? 122))
  || ((48 <=? n) && (n <=? 57))
  || (n =? 45) || (n =? 95) || (n =? 46) || (n =? 33) || (n =? 126)
  || (n =? 42) || (n =? 39) || (n =? 40) || (n =? 41).

Definition hex_digit (z : Z) : ascii :=
  if z <? 10 then from_char_code (48 + z) else from_char_code (55 + z).

Definition percent_escape (c : ascii) : string :=
  let n := char_code c in
  String "%" (String (hex_digit (Z.shiftr n 4))
                     (String (hex_digit (Z.land n 15)) EmptyString)).

Fixpoint encodeURIComponent (s : string) : string :=
  match s with
  | EmptyString => EmptyString
  | String c s' =>
      (if uri_unreserved c then String c EmptyString else percent_escape c)
      +:+ encodeURIComponent s'
  end.

(** [s.substring(0, n)] *)
Fixpoint substring0 (n : nat) (s : string) : string :=
  match n, s with
  | S n', String c s' => String c (substring0 n' s')
  | _, _ => EmptyString
  end.

(** A value interpolated in a template literal; [undefined] prints as such. *)
Definition tpl (v : option string) : string := default "undefined" v.

(** Truthiness of a value that is a string, [null] or [undefined]. *)
Definition truthy (v : option string) : bool :=
  match v with
  | Some s => negb (String.eqb s "")
  | None => false
  end.

(** [v !== s] for a string literal [s]. *)
Definition strict_ne (v : option string) (s : string) : bool :=
  negb (bool_decide (v = Some s)).

(** [v === s] for a string literal [s]. *)
Definition strict_eq (v : option string) (s : string) : bool :=
  bool_decide (v = Some s).

(** ** Upstream data *)

(** One [{Variable, Value}] entry of a decode response; the upstream service
    sends [null] for a value it does not have. *)
Record RawAttribute := {
  item_Variable : string;
  item_Value : option string
}.

(** Members that the handlers copy without inspecting them. *)
Inductive json :=
| JUndefined
| JNull
| JBool (b : bool)
| JNum (z : Z)
| JStr (s : string).

Record RecallRow := {
  NHTSACampaignNumber : json;
  Component : json;
  Summary : json;
  Consequence : json;
  Remedy : json;
  Manufacturer : json
}.

Record ComplaintRow := {
  odiNumber : json;
  components : json;
  summary : option string;
  crash : json;
  fire : json;
  injuries : json;
  dateOfIncident : json
}.

Record ModelRow := {
  Make_Name : json;
  Model_Name : json
}.

Record DecodeBody := { decode_Results : list RawAttribute }.
Record ModelsBody := { models_Results : option (list ModelRow) }.
Record RecallBody := { recall_results : option (list RecallRow) }.
Record ComplaintBody := { complaint_results : option (list ComplaintRow) }.

(** ** The record normalizer *)

(** [obj[k] = v] for a string [v], on an object created by [{}].  The key
    "__proto__" names the accessor that such an object inherits from
    [Object.prototype]: its setter ignores a value that is neither an object
    nor [null], so the assignment stores nothing.  Any other key becomes an
    own property of the object. *)
Definition set_property (k v : string) (obj : gmap string string)
  : gmap string string :=
  if bool_decide (k = "__proto__") then obj else <[k := v]> obj.

Definition cleanVinResults (results : list RawAttribute) : gmap string string :=
  fold_left
    (λ cleaned item,
       if truthy (item_Value item) && strict_ne (item_Value item) ""
          && strict_ne (item_Value item) "Not Applicable"
       then match item_Value item with
            | Some v => set_property (item_Variable item) v cleaned
            | None => cleaned
            end
       else cleaned)
    results ∅.

(** ** Asynchronous computations *)

Inductive JsError :=
| Error (message : string)
| TypeError (message : string).

Inductive outcome (A : Type) :=
| Returned (a : A)
| Raised (e : JsError).
Arguments Returned {A} a.
Arguments Raised {A} e.

(** What a computation did: the URLs it requested, in order, and how it
    ended. *)
Record Async (A : Type) := MkAsync {
  requests : list string;
  result : outcome A
}.
Arguments MkAsync {A} requests result.
Arguments requests {A} a.
Arguments result {A} a.

#[global] Instance Async_ret : MRet Async := λ A a, MkAsync [] (Returned a).

#[global] Instance Async_bind : MBind Async := λ A B k m,
  match result m with
  | Returned a => MkAsync (requests m ++ requests (k a)) (result (k a))
  | Raised e => MkAsync (requests m) (Raised e)
  end.

Definition throw {A} (e : JsError) : Async A := MkAsync [] (Raised e).

(** [try { m } catch { h }] *)
Definition try_catch {A} (m : Async A) (h : JsError → Async A) : Async A :=
  match result m with
  | Returned a => m
  | Raised e => MkAsync (requests m ++ requests (h e)) (result (h e))
  end.

(** [Promise.all]: every computation runs, whatever happens to the others;
    the results come in the order of the argument.  When several
    computations raise, JavaScript keeps the error raised first in time; the
    model keeps the leftmost one.  The requests of the computations overlap
    in time; the model lists them computation by computation. *)
Fixpoint all_returned {A} (os : list (outcome A)) : outcome (list A) :=
  match os with
  | [] => Returned []
  | Raised e :: _ => Raised e
  | Returned a :: os' =>
      match all_returned os' with
      | Returned l => Returned (a :: l)
      | Raised e => Raised e
      end
  end.

Definition Promise_all {A} (ps : list (Async A)) : Async (list A) :=
  MkAsync (concat (map requests ps)) (all_returned (map result ps)).

(** ** The upstream client *)

Record Response (A : Type) := MkResponse {
  status : Z;
  body : A
}.
Arguments MkResponse {A} status body.
Arguments status {A} r.
Arguments body {A} r.

(** [response.ok]: the status is in the range 200-299. *)
Definition ok {A} (r : Response A) : bool :=
  (200 <=? status r) && (status r <=? 299).

Inductive FetchResult (A : Type) :=
| Rejected (e : JsError)
| Resolved (r : Response A).
Arguments Rejected {A} e.
Arguments Resolved {A} r.

Definition Endpoint (A : Type) : Type := string → FetchResult A.

(** The upstream services, one endpoint for each shape of body. *)
Record Upstream := {
  vpic_decodevin : Endpoint DecodeBody;
  vpic_models : Endpoint ModelsBody;
  nhtsa_recalls : Endpoint RecallBody;
  nhtsa_complaints : Endpoint ComplaintBody
}.

Definition NHTSA_VPIC : string := "https://vpic.nhtsa.dot.gov/api/vehicles".
Definition NHTSA_RECALLS : string :=
  "https://api.nhtsa.gov/recalls/recallsByVehicle".
Definition NHTSA_COMPLAINTS : string :=
  "https://api.nhtsa.gov/complaints/complaintsByVehicle".

Definition fetch {A} (endpoint : Endpoint A) (url : string)
  : Async (Response A) :=
  MkAsync [url]
    match endpoint url with
    | Rejected e => Raised e
    | Resolved r => Returned r
    end.

Definition fetchJSON {A} (endpoint : Endpoint A) (url : string) : Async A :=
  response ← fetch endpoint url;
  if negb (ok response)
  then throw (Error ("NHTSA API error: " +:+ pretty (status response)))
  else mret (body response).

(** ** Results of the entrypoints *)

Record VehicleInfo := {
  v_make : option string;
  v_model : option string;
  v_year : option string;
  v_trim : option string;
  v_bodyClass : option string;
  v_vehicleType : option string;
  v_doors : option string
}.

Record EngineInfo := {
  e_displacement : option string;
  e_cylinders : option string;
  e_fuelType : option string;
  e_horsepower : option string
}.

Record ManufacturerInfo := {
  m_name : option string;
  m_plantCity : option string;
  m_plantCountry : option string
}.

Record SafetyInfo := {
  s_airbags : option string;
  s_abs : option string
}.

Record DecodeOutput := {
  d_vin : string;
  d_isValid : bool;
  d_errorMessage : option string;
  d_vehicle : VehicleInfo;
  d_engine : EngineInfo;
  d_manufacturer : ManufacturerInfo;
  d_safety : SafetyInfo;
  d_fetchedAt : string
}.

Record RecallRecord := {
  rr_campaignNumber : json;
  rr_component : json;
  rr_summary : json;
  rr_consequence : json;
  rr_remedy : json;
  rr_manufacturer : json
}.

(** Both shapes returned by [recalls-by-vin]: [ro_error] is present in the
    zero-result record only, [ro_fetchedAt] in the other one only;
    [ro_vehicle] is [null] ([None]) in the zero-result record. *)
Record RecallsOutput := {
  ro_vin : string;
  ro_error : option string;
  ro_vehicle : option string;
  ro_recallCount : nat;
  ro_recalls : list RecallRecord;
  ro_fetchedAt : option string
}.

Record ModelsOutput := {
  mo_make : string;
  mo_modelCount : nat;
  mo_models : list json;
  mo_fetchedAt : string
}.

Record ComplaintRecord := {
  cr_id : json;
  cr_component : json;
  cr_summary : option string;
  cr_crash : json;
  cr_fire : json;
  cr_injuries : json;
  cr_dateReceived : json
}.

Record ComplaintsOutput := {
  co_vehicle : string;
  co_complaintCount : nat;
  co_complaints : list ComplaintRecord;
  co_fetchedAt : string
}.

Record ComparisonRow := {
  row_vin : string;
  row_year : option string;
  row_make : option string;
  row_model : option string;
  row_trim : option string;
  row_bodyClass : option string;
  row_engine : string;
  row_fuelType : option string;
  row_manufacturer : option string;
  row_plantCountry : option string;
  row_recallCount : nat
}.

Record CompareOutput := {
  comparison : list ComparisonRow;
  comparedAt : string
}.

(** ** The entrypoint handlers *)

(** [recalls.slice(0, 20).map(r => ({...}))], the function mapped *)
Definition recall_record (r : RecallRow) : RecallRecord :=
  {| rr_campaignNumber := NHTSACampaignNumber r;
     rr_component := Component r;
     rr_summary := Summary r;
     rr_consequence := Consequence r;
     rr_remedy := Remedy r;
     rr_manufacturer := Manufacturer r |}.

(** [complaints.slice(0, 20).map(c => ({...}))], the function mapped *)
Definition complaint_record (c : ComplaintRow) : ComplaintRecord :=
  {| cr_id := odiNumber c;
     cr_component := components c;
     cr_summary := substring0 500 <$> summary c;
     cr_crash := crash c;
     cr_fire := fire c;
     cr_injuries := injuries c;
     cr_dateReceived := dateOfIncident c |}.

(** The object that the pipeline of one subject of [compare] returns. *)
Definition comparison_row (v : string) (specs : gmap string string)
    (recallCount : nat) : ComparisonRow :=
  {| row_vin := v;
     row_year := specs !! "Model Year";
     row_make := specs !! "Make";
     row_model := specs !! "Model";
     row_trim := specs !! "Trim";
     row_bodyClass := specs !! "Body Class";
     row_engine := tpl (specs !! "Displacement (L)") +:+ "L "
                   +:+ tpl (specs !! "Engine Number of Cylinders") +:+ "-cyl";
     row_fuelType := specs !! "Fuel Type - Primary";
     row_manufacturer := specs !! "Manufacturer Name";
     row_plantCountry := specs !! "Plant Country";
     row_recallCount := recallCount |}.

Section Model.
Context {builtins : StringBuiltins}.

(** [v.toLowerCase()]; the call raises when [v] is [undefined]. *)
Definition method_toLowerCase (v : option string) : Async string :=
  match v with
  | Some s => mret (toLowerCase s)
  | None =>
      throw (TypeError "undefined is not an object (evaluating 'toLowerCase')")
  end.

Section Handlers.
Context (now : string).

Definition decode_vin (up : Upstream) (input_vin : string)
  : Async DecodeOutput :=
  let vin := toUpperCase input_vin in
  data ← fetchJSON (vpic_decodevin up)
         (NHTSA_VPIC +:+ "/decodevin/" +:+ vin +:+ "?format=json");
  let specs := cleanVinResults (decode_Results data) in
  mret {|
    d_vin := vin;
    d_isValid := strict_eq (specs !! "Error Code") "0";
    d_errorMessage := specs !! "Error Text";
    d_vehicle := {|
      v_make := specs !! "Make";
      v_model := specs !! "Model";
      v_year := specs !! "Model Year";
      v_trim := specs !! "Trim";
      v_bodyClass := specs !! "Body Class";
      v_vehicleType := specs !! "Vehicle Type";
      v_doors := specs !! "Doors" |};
    d_engine := {|
      e_displacement := specs !! "Displacement (L)";
      e_cylinders := specs !! "Engine Number of Cylinders";
      e_fuelType := specs !! "Fuel Type - Primary";
      e_horsepower := specs !! "Engine Brake (hp) From" |};
    d_manufacturer := {|
      m_name := specs !! "Manufacturer Name";
      m_plantCity := specs !! "Plant City";
      m_plantCountry := specs !! "Plant Country" |};
    d_safety := {|
      s_airbags := specs !! "Air Bag Loc Front";
      s_abs := specs !! "Brake System Type" |};
    d_fetchedAt := now |}.

(** The URL of the second phase of [recalls-by-vin]. *)
Definition recallUrl (make model year : string) : string :=
  "https://api.nhtsa.gov/recalls/recallsByVehicle?make="
  +:+ encodeURIComponent make +:+ "&model=" +:+ encodeURIComponent model
  +:+ "&modelYear=" +:+ year.

Definition recalls_by_vin (up : Upstream) (input_vin : string)
  : Async RecallsOutput :=
  let vin := toUpperCase input_vin in
  decoded ← fetchJSON (vpic_decodevin up)
            (NHTSA_VPIC +:+ "/decodevin/" +:+ vin +:+ "?format=json");
  let specs := cleanVinResults (decode_Results decoded) in
  if negb (truthy (specs !! "Make")) || negb (truthy (specs !! "Model"))
     || negb (truthy (specs !! "Model Year"))
  then
    mret {|
      ro_vin := vin;
      ro_error := Some "Could not decode VIN to get vehicle details";
      ro_vehicle := None;
      ro_recallCount := 0;
      ro_recalls := [];
      ro_fetchedAt := None |}
  else
    make ← method_toLowerCase (specs !! "Make");
    model ← method_toLowerCase (specs !! "Model");
    let year := specs !! "Model Year" in
    recallResponse ← fetch (nhtsa_recalls up) (recallUrl make model (tpl year));
    let recalls :=
      if ok recallResponse
      then default [] (recall_results (body recallResponse))
      else [] in
    mret {|
      ro_vin := vin;
      ro_error := None;
      ro_vehicle := Some (tpl (specs !! "Model Year") +:+ " "
                          +:+ tpl (specs !! "Make") +:+ " "
                          +:+ tpl (specs !! "Model"));
      ro_recallCount := length recalls;
      ro_recalls := map recall_record (take 20 recalls);
      ro_fetchedAt := Some now |}.

Definition models (up : Upstream) (make : string) : Async ModelsOutput :=
  data ← fetchJSON (vpic_models up)
         (NHTSA_VPIC +:+ "/GetModelsForMake/" +:+ encodeURIComponent make
          +:+ "?format=json");
  let models :=
    default [] (map (λ r, (Make_Name r, Model_Name r))
                  <$> models_Results data) in
  mret {|
    mo_make := make;
    mo_modelCount := length models;
    mo_models := map snd models;
    mo_fetchedAt := now |}.

Definition complaints (up : Upstream) (make model : string) (year : Z)
  : Async ComplaintsOutput :=
  data ← fetchJSON (nhtsa_complaints up)
         (NHTSA_COMPLAINTS +:+ "?make=" +:+ encodeURIComponent make
          +:+ "&model=" +:+ encodeURIComponent model
          +:+ "&modelYear=" +:+ pretty year);
  let complaints := default [] (complaint_results data) in
  mret {|
    co_vehicle := pretty year +:+ " " +:+ make +:+ " " +:+ model;
    co_complaintCount := length complaints;
    co_complaints := map complaint_record (take 20 complaints);
    co_fetchedAt := now |}.

(** The body of the function mapped over [ctx.input.vins] by [compare]:
    the pipeline of one subject. *)
Definition compare_subject (up : Upstream) (vin : string)
  : Async ComparisonRow :=
  let v := toUpperCase vin in
  decoded ← fetchJSON (vpic_decodevin up)
            (NHTSA_VPIC +:+ "/decodevin/" +:+ v +:+ "?format=json");
  let specs := cleanVinResults (decode_Results decoded) in
  recallCount ←
    try_catch
      (recalls ← fetchJSON (nhtsa_recalls up) (NHTSA_RECALLS +:+ "?vin=" +:+ v);
       mret (default 0%nat (length <$> recall_results recalls)))
      (λ _, mret 0%nat);
  mret (comparison_row v specs recallCount).

(** [ups i] is the upstream as the pipeline of the subject at index [i]
    meets it: the pipelines run at different times, and two requests for
    one URL need not get the same answer. *)
Definition compare (ups : nat → Upstream) (vins : list string)
  : Async CompareOutput :=
  results ← Promise_all (imap (λ i vin, compare_subject (ups i) vin) vins);
  mret {| comparison := results; comparedAt := now |}.

End Handlers.

(** ** Vocabulary of the specification *)

(** A value that is a non-empty string different from "Not Applicable". *)
Definition meaningful (v : option string) : bool :=
  match v with
  | Some s =>
      negb (bool_decide (s = "")) && negb (bool_decide (s = "Not Applicable"))
  | None => false
  end.

(** The meaningful values that a raw attribute list gives for the variable
    [k], in the order of the list. *)
Definition values_for (k : string) (results : list RawAttribute)
  : list string :=
  omap (λ item,
          if bool_decide (item_Variable item = k) && meaningful (item_Value item)
          then item_Value item else None)
       results.

(** The URL of the decode request for an identification number. *)
Definition decodeUrl (vin : string) : string :=
  NHTSA_VPIC +:+ "/decodevin/" +:+ toUpperCase vin +:+ "?format=json".

(** The URL of the auxiliary recall lookup of [compare]. *)
Definition recallsByVinUrl (vin : string) : string :=
  NHTSA_RECALLS +:+ "?vin=" +:+ toUpperCase vin.

(** An upstream call fails: the promise is rejected, or the status of the
    response is outside 200-299. *)
Definition lookup_failed {A} (fr : FetchResult A) : bool :=
  match fr with
  | Rejected _ => true
  | Resolved r => negb (ok r)
  end.

(** Identity resolution fails on a cleaned spec. *)
Definition identity_missing (specs : gmap string string) : Prop :=
  specs !! "Make" = None ∨ specs !! "Model" = None
  ∨ specs !! "Model Year" = None.

(** The recall count that the auxiliary lookup of [compare] contributes. *)
Definition recall_count_of (fr : FetchResult RecallBody) : nat :=
  match fr with
  | Rejected _ => 0%nat
  | Resolved r =>
      if ok r then default 0%nat (length <$> recall_results (body r))
      else 0%nat
  end.

Definition set_recallCount (n : nat) (row : ComparisonRow) : ComparisonRow :=
  {| row_vin := row_vin row;
     row_year := row_year row;
     row_make := row_make row;
     row_model := row_model row;
     row_trim := row_trim row;
     row_bodyClass := row_bodyClass row;
     row_engine := row_engine row;
     row_fuelType := row_fuelType row;
     row_manufacturer := row_manufacturer row;
     row_plantCountry := row_plantCountry row;
     row_recallCount := n |}.

(** The inverse of [encodeURIComponent] on what it produces. *)
Definition hex_value (c : ascii) : Z :=
  let n := char_code c in
  if n <? 58 then n - 48 else n - 55.

Fixpoint uri_decode (fuel : nat) (s : string) : string :=
  match fuel with
  | O => EmptyString
  | S fuel' =>
      match s with
      | String "%" (String h (String l s')) =>
          String (from_char_code (16 * hex_value h + hex_value l))
                 (uri_decode fuel' s')
      | String c s' => String c (uri_decode fuel' s')
      | EmptyString => EmptyString
      end
  end.

(** ** Sample upstream data *)

Definition attr (k : string) (v : option string) : RawAttribute :=
  {| item_Variable := k; item_Value := v |}.

(** A decode response with a full identity. *)
Definition honda_Results : list RawAttribute :=
  [ attr "Error Code" (Some "0");
    attr "Error Text" (Some "0 - VIN decoded clean. Check Digit (9th position) is correct");
    attr "Make" (Some "HONDA");
    attr "Manufacturer Name" (Some "AMERICAN HONDA MOTOR CO., INC.");
    attr "Model" (Some "ACCORD");
    attr "Model Year" (Some "2003");
    attr "Plant Country" (Some "UNITED STATES (USA)");
    attr "Trim" None;
    attr "Doors" (Some "");
    attr "Bus Type" (Some "Not Applicable");
    attr "Body Class" (Some "Coupe");
    attr "Displacement (L)" (Some "2.998832712"); 
    attr "Engine Number of Cylinders" (Some "6") ].

(** A decode response on which the upstream service reports an error and
    gives no model year. *)
Definition unresolved_Results : list RawAttribute :=
  [ attr "Error Code" (Some "8");
    attr "Error Text" (Some "8 - No detailed data available currently");
    attr "Make" (Some "HONDA");
    attr "Model" None;
    attr "Model Year" (Some "") ].

Definition sample_recall (n : nat) : RecallRow :=
  {| NHTSACampaignNumber := JNum (Z.of_nat n);
     Component := JStr "AIR BAGS";
     Summary := JStr "summary";
     Consequence := JStr "consequence";
     Remedy := JStr "remedy";
     Manufacturer := JStr "Honda (American Honda Motor Co.)" |}.

Definition sample_complaint (n : nat) : ComplaintRow :=
  {| odiNumber := JNum (Z.of_nat n);
     components := JStr "ENGINE";
     summary := Some "the engine stalls";
     crash := JBool false;
     fire := JBool false;
     injuries := JNum 0;
     dateOfIncident := JStr "01/02/2020" |}.

Definition decode_with (results : list RawAttribute) : Endpoint DecodeBody :=
  λ _, Resolved (MkResponse 200 {| decode_Results := results |}).

Definition recalls_with (st : Z) (rows : nat) : Endpoint RecallBody :=
  λ _, Resolved (MkResponse st
                   {| recall_results := Some (sample_recall <$> seq 0 rows) |}).

Definition sample_upstream (decode : Endpoint DecodeBody)
    (recalls : Endpoint RecallBody) : Upstream :=
  {| vpic_decodevin := decode;
     vpic_models :=
       λ _, Resolved (MkResponse 200 {| models_Results := None |});
     nhtsa_recalls := recalls;
     nhtsa_complaints :=
       λ _, Resolved (MkResponse 200
              {| complaint_results := Some (sample_complaint <$> seq 0 25) |}) |}.

(** The decode succeeds and 25 recalls are on record. *)
Definition honda_up : Upstream :=
  sample_upstream (decode_with honda_Results) (recalls_with 200 25).

(** The decode succeeds and the recall service answers 503. *)
Definition honda_up_recalls_down : Upstream :=
  sample_upstream (decode_with honda_Results) (recalls_with 503 0).

(** The decode succeeds without resolving the identity. *)
Definition unresolved_up : Upstream :=
  sample_upstream (decode_with unresolved_Results) (recalls_with 200 3).

(** The decode service answers 500. *)
Definition decode_down_up : Upstream :=
  sample_upstream
    (λ _, Resolved (MkResponse 500 {| decode_Results := [] |}))
    (recalls_with 200 3).

Definition sample_now : string := "2026-01-01T00:00:00.000Z".
Definition sample_vin : string := "1hgcm82633a004352".
Definition sample_vins : list string :=
  ["1hgcm82633a004352"; "1HGCM82633A004353"; "1hgcm82633a004354"].

(** Three subjects, the recall service being down for the second one. *)
Definition second_recalls_down (i : nat) : Upstream :=
  match i with
  | 1%nat => honda_up_recalls_down
  | _ => honda_up
  end.

(** Three subjects, the decode service being down for the second one. *)
Definition second_decode_down (i : nat) : Upstream :=
  match i with
  | 1%nat => decode_down_up
  | _ => honda_up
  end.

(** Three subjects, the identity of the second one being unresolved. *)
Definition second_unresolved (i : nat) : Upstream :=
  match i with
  | 1%nat => unresolved_up
  | _ => honda_up
  end.

(** What [compare] returns for the three subjects when every call
    succeeds. *)
Definition sample_comparison : CompareOutput :=
  {| comparison :=
       (λ vin, comparison_row (toUpperCase vin)
                 (cleanVinResults honda_Results) 25) <$> sample_vins;
     comparedAt := sample_now |}.

(** ** The remaining entrypoints *)

(** The body of a [GetAllMakes] response; [overview] only counts its rows. *)
Record MakesBody := { makes_Results : option (list json) }.

Record OverviewOutput := {
  ov_totalMakes : nat;
  ov_popularMakes : list string;
  ov_capabilities : list string;
  ov_dataSource : string;
  ov_fetchedAt : string
}.

Definition overview (now : string) (vpic_makes : Endpoint MakesBody)
  : Async OverviewOutput :=
  makes ← fetchJSON vpic_makes (NHTSA_VPIC +:+ "/GetAllMakes?format=json");
  let popularMakes :=
    ["Toyota"; "Ford"; "Honda"; "Chevrolet"; "Tesla"; "BMW"; "Mercedes-Benz";
     "Audi"; "Volkswagen"; "Nissan"] in
  mret {|
    ov_totalMakes := default 0%nat (length <$> makes_Results makes);
    ov_popularMakes := popularMakes;
    ov_capabilities :=
      ["VIN decoding - Get full vehicle specs from any 17-digit VIN";
       "Safety recalls - Check open recalls by VIN or make/model/year";
       "Complaints - View consumer complaints by make/model/year";
       "Makes catalog - All vehicle manufacturers";
       "Models lookup - Models by make"];
    ov_dataSource := "NHTSA (National Highway Traffic Safety Administration)";
    ov_fetchedAt := now |}.

(** [a.slice(0, end)] for an integer [end]: a negative [end] counts from the
    end of the array. *)
Definition slice0 {A} (end_ : Z) (a : list A) : list A :=
  let len := Z.of_nat (length a) in
  let final := if end_ <? 0 then Z.max (len + end_) 0 else Z.min end_ len in
  take (Z.to_nat final) a.

Record TransactionsOutput (Transaction : Type) := {
  transactions : list Transaction
}.
#[global] Arguments transactions {Transaction} t.

Section Analytics.
(** The payment tracker and [getAllTransactions] belong to the analytics
    package; the handler is modelled for any of them.  [paymentTracker] is
    [agent.analytics?.paymentTracker]; [limit] is the input before the
    schema's default of 50 is applied; numbers are integers. *)
Context {Tracker Transaction : Type}.
Context (getAllTransactions : Tracker → option Z → Async (list Transaction)).

Definition analytics_transactions (paymentTracker : option Tracker)
    (windowMs : option Z) (input_limit : option Z)
  : Async (TransactionsOutput Transaction) :=
  let limit := default 50 input_limit in
  match paymentTracker with
  | None => mret {| transactions := [] |}
  | Some tracker =>
      txs ← getAllTransactions tracker windowMs;
      mret {| transactions := slice0 limit txs |}
  end.

End Analytics.

(** ** Further vocabulary *)

(** The error that [fetchJSON] raises for what [fetch] yields, if any. *)
Definition fetch_error {A} (fr : FetchResult A) : option JsError :=
  match fr with
  | Rejected e => Some e
  | Resolved r =>
      if ok r then None
      else Some (Error ("NHTSA API error: " +:+ pretty (status r)))
  end.

(** The pairs of a raw attribute list whose value is meaningful, in the
    order of the list. *)
Definition meaningful_pairs (results : list RawAttribute)
  : list (string * string) :=
  omap (λ item,
          if meaningful (item_Value item)
          then pair (item_Variable item) <$> item_Value item
          else None)
       results.

(** The meaningful pairs that an object created by [{}] stores. *)
Definition stored_pairs (results : list RawAttribute)
  : list (string * string) :=
  filter (λ kv, kv.1 ≠ "__proto__") (meaningful_pairs results).

(** A cleaned spec written back as a raw attribute list. *)
Definition to_attributes (specs : gmap string string) : list RawAttribute :=
  (λ kv, attr kv.1 (Some kv.2)) <$> map_to_list specs.

(** A field of a result is absent or a non-empty string different from
    "Not Applicable". *)
Definition clean_field (v : option string) : Prop :=
  ∀ s, v = Some s → s ≠ "" ∧ s ≠ "Not Applicable".

(** The fields of a [decode-vin] result that come from the cleaned spec. *)
Definition decode_fields (out : DecodeOutput) : list (option string) :=
  [ d_errorMessage out;
    v_make (d_vehicle out); v_model (d_vehicle out); v_year (d_vehicle out);
    v_trim (d_vehicle out); v_bodyClass (d_vehicle out);
    v_vehicleType (d_vehicle out); v_doors (d_vehicle out);
    e_displacement (d_engine out); e_cylinders (d_engine out);
    e_fuelType (d_engine out); e_horsepower (d_engine out);
    m_name (d_manufacturer out); m_plantCity (d_manufacturer out);
    m_plantCountry (d_manufacturer out);
    s_airbags (d_safety out); s_abs (d_safety out) ].

(** The fields of a [compare] row that come from the cleaned spec. *)
Definition row_fields (row : ComparisonRow) : list (option string) :=
  [ row_year row; row_make row; row_model row; row_trim row;
    row_bodyClass row; row_fuelType row; row_manufacturer row;
    row_plantCountry row ].

(** * Properties *)

(** ** The normalizer *)

Lemma truthy_nonempty (s : string) : truthy (Some s) = negb (bool_decide (s = "")).
Proof.
  simpl. f_equal. destruct (String.eqb_spec s ""); symmetry.
  - by apply bool_decide_eq_true.
  - by apply bool_decide_eq_false.
Qed.

Lemma guard_meaningful (v : option string) :
  truthy v && strict_ne v "" && strict_ne v "Not Applicable" = meaningful v.
Proof.
  destruct v as [s|]; [|done].
  rewrite truthy_nonempty. unfold strict_ne, meaningful.
  repeat case_bool_decide; simplify_eq; done.
Qed.

Lemma meaningful_Some (v : option string) :
  meaningful v = true ↔ ∃ s, v = Some s ∧ s ≠ "" ∧ s ≠ "Not Applicable".
Proof.
  destruct v as [s|]; simpl.
  - rewrite andb_true_iff, !negb_true_iff, !bool_decide_eq_false. split.
    + intros [? ?]. by exists s.
    + intros (s' & [= <-] & ? & ?). done.
  - split; [done|]. by intros (s & ? & _).
Qed.

Lemma values_for_cons (k : string) (item : RawAttribute) (rest : list RawAttribute) :
  values_for k (item :: rest) =
    match item_Value item with
    | Some v =>
        if bool_decide (item_Variable item = k) && meaningful (item_Value item)
        then v :: values_for k rest else values_for k rest
    | None => values_for k rest
    end.
Proof.
  unfold values_for. simpl.
  destruct (item_Value item) as [v|]; simpl.
  - by destruct (bool_decide _ && _).
  - by rewrite andb_false_r.
Qed.

Lemma values_for_app (k : string) (l1 l2 : list RawAttribute) :
  values_for k (l1 ++ l2) = values_for k l1 ++ values_for k l2.
Proof. apply omap_app. Qed.

Lemma elem_of_values_for (k v : string) (results : list RawAttribute) :
  v ∈ values_for k results ↔
  {| item_Variable := k; item_Value := Some v |} ∈ results
  ∧ v ≠ "" ∧ v ≠ "Not Applicable".
Proof.
  unfold values_for. rewrite list_elem_of_omap. split.
  - intros ([k' v'] & Hin & Heq). simpl in Heq.
    destruct (bool_decide (k' = k) && meaningful v') eqn:Hg; [|done].
    apply andb_true_iff in Hg as [Hk Hm]. apply bool_decide_eq_true in Hk.
    apply meaningful_Some in Hm as (s & -> & ? & ?). by simplify_eq.
  - intros (Hin & ? & ?). eexists; split; [exact Hin|]. simpl.
    rewrite bool_decide_eq_true_2 by done.
    by rewrite !bool_decide_eq_false_2 by done.
Qed.

(** The loop of [cleanVinResults], started from any dictionary. *)
Lemma clean_loop_lookup (results : list RawAttribute) (m : gmap string string)
    (k : string) :
  fold_left
    (λ cleaned item,
       if truthy (item_Value item) && strict_ne (item_Value item) ""
          && strict_ne (item_Value item) "Not Applicable"
       then match item_Value item with
            | Some v => set_property (item_Variable item) v cleaned
            | None => cleaned
            end
       else cleaned)
    results m !! k
  = if bool_decide (k = "__proto__") then m !! k
    else match last (values_for k results) with
         | Some v => Some v
         | None => m !! k
         end.
Proof.
  revert m. induction results as [|item rest IH]; intros m.
  { cbn. by destruct (bool_decide _). }
  cbn [fold_left]. rewrite IH, values_for_cons, guard_meaningful.
  destruct (item_Value item) as [v|] eqn:Hv; [|done].
  destruct (meaningful (Some v)) eqn:Hm; [|by rewrite andb_false_r].
  rewrite andb_true_r. unfold set_property.
  destruct (decide (k = "__proto__")) as [->|Hk].
  - rewrite (bool_decide_eq_true_2 ("__proto__" = "__proto__")) by done.
    destruct (decide (item_Variable item = "__proto__")) as [Hp|Hp].
    + by rewrite (bool_decide_eq_true_2 _ Hp).
    + rewrite (bool_decide_eq_false_2 _ Hp). by rewrite lookup_insert_ne.
  - rewrite (bool_decide_eq_false_2 (k = "__proto__")) by done.
    destruct (decide (item_Variable item = k)) as [Hvk|Hvk].
    + rewrite (bool_decide_eq_true_2 _ Hvk).
      rewrite (bool_decide_eq_false_2 (item_Variable item = "__proto__"))
        by congruence.
      rewrite last_cons. destruct (last (values_for k rest)); [done|].
      subst k. by rewrite lookup_insert_eq.
    + rewrite (bool_decide_eq_false_2 _ Hvk).
      destruct (last (values_for k rest)); [done|].
      destruct (bool_decide (item_Variable item = "__proto__")); [done|].
      by rewrite lookup_insert_ne.
Qed.

Lemma cleanVinResults_lookup (results : list RawAttribute) (k : string) :
  k ≠ "__proto__" →
  cleanVinResults results !! k = last (values_for k results).
Proof.
  intros Hk. unfold cleanVinResults. rewrite clean_loop_lookup, lookup_empty.
  rewrite (bool_decide_eq_false_2 _ Hk). by destruct (last _).
Qed.

Lemma cleanVinResults_proto (results : list RawAttribute) :
  cleanVinResults results !! "__proto__" = None.
Proof.
  unfold cleanVinResults. rewrite clean_loop_lookup, lookup_empty.
  by rewrite bool_decide_eq_true_2.
Qed.

(** Every value of a cleaned spec is one that the list gives, verbatim, and
    is a non-empty string different from "Not Applicable". *)
Lemma cleanVinResults_Some (results : list RawAttribute) (k v : string) :
  cleanVinResults results !! k = Some v →
  {| item_Variable := k; item_Value := Some v |} ∈ results
  ∧ v ≠ "" ∧ v ≠ "Not Applicable".
Proof.
  intros Hl. destruct (decide (k = "__proto__")) as [->|Hk].
  { by rewrite cleanVinResults_proto in Hl. }
  rewrite cleanVinResults_lookup in Hl by done.
  apply elem_of_values_for. apply last_Some in Hl as [l' ->].
  apply elem_of_app. right. by apply list_elem_of_singleton.
Qed.

(** Values of a cleaned spec are never empty: a key is falsy exactly when it
    is absent. *)
Lemma cleanVinResults_truthy (results : list RawAttribute) (k : string) :
  truthy (cleanVinResults results !! k)
  = bool_decide (is_Some (cleanVinResults results !! k)).
Proof.
  destruct (cleanVinResults results !! k) as [v|] eqn:Hl.
  - rewrite bool_decide_eq_true_2 by eauto.
    apply cleanVinResults_Some in Hl as (_ & Hne & _).
    rewrite truthy_nonempty. by rewrite bool_decide_eq_false_2.
  - rewrite bool_decide_eq_false_2; [done|]. by intros [? ?].
Qed.

(** C1: the normalizer does not keep every pair whose value is a non-empty
    string different from "Not Applicable": a pair whose Variable is
    "__proto__" is never stored, as the list of the single pair
    "__proto__" -> "HONDA" shows, whose cleaned spec is empty.  For every
    other Variable the mapping holds the last such value that the list
    gives for it. *)
Theorem cleanVinResults_proto_not_stored :
  meaningful (Some "HONDA") = true
  ∧ cleanVinResults
      [{| item_Variable := "__proto__"; item_Value := Some "HONDA" |}] = ∅
  ∧ (∀ results, cleanVinResults results !! "__proto__" = None)
  ∧ (∀ results k, k ≠ "__proto__" →
       cleanVinResults results !! k = last (values_for k results)).
Proof.
  split; [done|]. split; [done|]. split.
  - apply cleanVinResults_proto.
  - apply cleanVinResults_lookup.
Qed.

(** X21: for a Variable other than "__proto__", [cleanVinResults] maps it
    to the last of the values that the list gives for it and that are
    non-empty strings different from "Not Applicable" (so a later pair wins
    over an earlier one, and a pair with any other value is skipped); every
    value of the mapping is one of these, verbatim; and the Variable is a
    key of the mapping if and only if some pair of the list gives it such a
    value. *)
Theorem cleanVinResults_spec (results : list RawAttribute) (k : string) :
  k ≠ "__proto__" →
  cleanVinResults results !! k = last (values_for k results)
  ∧ (∀ v, cleanVinResults results !! k = Some v →
       {| item_Variable := k; item_Value := Some v |} ∈ results
       ∧ v ≠ "" ∧ v ≠ "Not Applicable")
  ∧ (is_Some (cleanVinResults results !! k) ↔
       ∃ v, {| item_Variable := k; item_Value := Some v |} ∈ results
            ∧ v ≠ "" ∧ v ≠ "Not Applicable")
  ∧ (∀ l1 l2 v,
       results = l1 ++ {| item_Variable := k; item_Value := Some v |} :: l2 →
       v ≠ "" → v ≠ "Not Applicable" →
       Forall (λ item, item_Variable item = k →
                       meaningful (item_Value item) = false) l2 →
       cleanVinResults results !! k = Some v).
Proof.
  intros Hk.
  split; [by apply cleanVinResults_lookup|]. split; [|split].
  - apply cleanVinResults_Some.
  - rewrite cleanVinResults_lookup by done. split.
    + intros [v Hl]. exists v. apply elem_of_values_for.
      apply last_Some in Hl as [l' ->].
      apply elem_of_app. right. by apply list_elem_of_singleton.
    + intros (v & Hin). apply elem_of_values_for in Hin.
      destruct (last (values_for k results)) eqn:Hl; [eauto|].
      apply last_None in Hl. rewrite Hl in Hin. by apply elem_of_nil in Hin.
  - intros l1 l2 v -> Hne1 Hne2 Hl2. rewrite cleanVinResults_lookup by done.
    assert (values_for k l2 = []) as Hnil.
    { induction Hl2 as [|item l2 Hitem _ IH]; [done|].
      rewrite values_for_cons, IH.
      destruct (item_Value item); [|done].
      case_bool_decide; [|done]. by rewrite Hitem. }
    rewrite values_for_app, values_for_cons, Hnil, last_app.
    cbn [item_Value item_Variable meaningful].
    rewrite bool_decide_eq_true_2 by done.
    by rewrite !bool_decide_eq_false_2 by done.
Qed.

(** ** The upstream client *)

Lemma bind_Returned {A B} (l : list string) (a : A) (k : A → Async B) :
  MkAsync l (Returned a) ≫= k = MkAsync (l ++ requests (k a)) (result (k a)).
Proof. reflexivity. Qed.

Lemma bind_Raised {A B} (l : list string) (e : JsError) (k : A → Async B) :
  MkAsync l (Raised e) ≫= k = MkAsync l (Raised e).
Proof. reflexivity. Qed.

Lemma fetchJSON_run {A} (endpoint : Endpoint A) (url : string) :
  fetchJSON endpoint url =
    MkAsync [url]
      match endpoint url with
      | Rejected e => Raised e
      | Resolved r =>
          if ok r then Returned (body r)
          else Raised (Error ("NHTSA API error: " +:+ pretty (status r)))
      end.
Proof.
  unfold fetchJSON, fetch.
  destruct (endpoint url) as [e|r]; [done|].
  rewrite bind_Returned. by destruct (ok r).
Qed.

Lemma fetchJSON_ok {A} (endpoint : Endpoint A) (url : string) (r : Response A) :
  endpoint url = Resolved r → ok r = true →
  fetchJSON endpoint url = MkAsync [url] (Returned (body r)).
Proof. intros Hr Hok. by rewrite fetchJSON_run, Hr, Hok. Qed.

Lemma fetchJSON_failed {A} (endpoint : Endpoint A) (url : string) :
  lookup_failed (endpoint url) = true →
  ∃ e, fetchJSON endpoint url = MkAsync [url] (Raised e).
Proof.
  intros Hf. rewrite fetchJSON_run.
  destruct (endpoint url) as [e|r]; [by eexists|].
  simpl in Hf. apply negb_true_iff in Hf. rewrite Hf. by eexists.
Qed.

(** ** [decode-vin] *)

(** C7: when the decode response has a success status, [decode-vin] returns
    (it does not raise); [isValid] is true if and only if the cleaned spec
    has "Error Code" equal to "0"; and [errorMessage] is the "Error Text" of
    the cleaned spec, so that an error reported by the upstream service is
    returned as data. *)
Theorem decode_vin_reports_validity (now : string) (up : Upstream)
    (vin : string) (r : Response DecodeBody) :
  vpic_decodevin up (decodeUrl vin) = Resolved r →
  ok r = true →
  ∃ out,
    decode_vin now up vin = MkAsync [decodeUrl vin] (Returned out)
    ∧ (d_isValid out = true ↔
         cleanVinResults (decode_Results (body r)) !! "Error Code" = Some "0")
    ∧ d_errorMessage out
      = cleanVinResults (decode_Results (body r)) !! "Error Text"
    ∧ (cleanVinResults (decode_Results (body r)) !! "Error Code" ≠ Some "0" →
         d_isValid out = false).
Proof.
  intros Hr Hok. unfold decode_vin. fold (decodeUrl vin).
  rewrite (fetchJSON_ok _ _ _ Hr Hok), bind_Returned.
  eexists. split; [reflexivity|]. cbn [d_isValid d_errorMessage].
  unfold strict_eq. split; [apply bool_decide_eq_true|]. split; [done|].
  apply bool_decide_eq_false_2.
Qed.

(** ** [recalls-by-vin] *)

Lemma identity_missing_guard (results : list RawAttribute) :
  negb (truthy (cleanVinResults results !! "Make"))
  || negb (truthy (cleanVinResults results !! "Model"))
  || negb (truthy (cleanVinResults results !! "Model Year")) = true
  ↔ identity_missing (cleanVinResults results).
Proof.
  rewrite !cleanVinResults_truthy, !orb_true_iff, !negb_true_iff,
    !bool_decide_eq_false, <- !eq_None_not_Some.
  unfold identity_missing. tauto.
Qed.

(** C2: when the decode response has a success status and the cleaned spec
    lacks "Make", "Model" or "Model Year", [recalls-by-vin] returns the
    zero-result record (no recalls, a count of 0, an explanatory message); it
    does not raise, and the decode request is the only request it issues. *)
Theorem recalls_by_vin_unresolved_identity (now : string) (up : Upstream)
    (vin : string) (r : Response DecodeBody) :
  vpic_decodevin up (decodeUrl vin) = Resolved r →
  ok r = true →
  identity_missing (cleanVinResults (decode_Results (body r))) →
  recalls_by_vin now up vin =
    MkAsync [decodeUrl vin]
      (Returned {| ro_vin := toUpperCase vin;
                   ro_error := Some "Could not decode VIN to get vehicle details";
                   ro_vehicle := None;
                   ro_recallCount := 0;
                   ro_recalls := [];
                   ro_fetchedAt := None |}).
Proof.
  intros Hr Hok Hmiss. unfold recalls_by_vin. fold (decodeUrl vin).
  rewrite (fetchJSON_ok _ _ _ Hr Hok), bind_Returned.
  apply identity_missing_guard in Hmiss. by rewrite Hmiss.
Qed.

(** The run of [recalls-by-vin] once the identity is resolved. *)
Lemma recalls_by_vin_resolved (now : string) (up : Upstream) (vin : string)
    (r : Response DecodeBody) (make model year : string) :
  vpic_decodevin up (decodeUrl vin) = Resolved r →
  ok r = true →
  cleanVinResults (decode_Results (body r)) !! "Make" = Some make →
  cleanVinResults (decode_Results (body r)) !! "Model" = Some model →
  cleanVinResults (decode_Results (body r)) !! "Model Year" = Some year →
  recalls_by_vin now up vin =
    let url := recallUrl (toLowerCase make) (toLowerCase model) year in
    MkAsync [decodeUrl vin; url]
      match nhtsa_recalls up url with
      | Rejected e => Raised e
      | Resolved recallResponse =>
          let recalls :=
            if ok recallResponse
            then default [] (recall_results (body recallResponse))
            else [] in
          Returned {| ro_vin := toUpperCase vin;
                      ro_error := None;
                      ro_vehicle := Some (year +:+ " " +:+ make +:+ " " +:+ model);
                      ro_recallCount := length recalls;
                      ro_recalls := map recall_record (take 20 recalls);
                      ro_fetchedAt := Some now |}
      end.
Proof.
  intros Hr Hok Hmake Hmodel Hyear. unfold recalls_by_vin. fold (decodeUrl vin).
  rewrite (fetchJSON_ok _ _ _ Hr Hok), bind_Returned.
  destruct (negb _ || negb _ || negb _) eqn:Hg.
  { apply identity_missing_guard in Hg as [?|[?|?]]; congruence. }
  rewrite Hmake, Hmodel, Hyear. cbn [method_toLowerCase tpl default].
  unfold mret, Async_ret. rewrite !bind_Returned. unfold fetch.
  cbn [requests result app].
  by destruct (nhtsa_recalls up _) as [e|recallResponse].
Qed.

(** C5: when identity resolution succeeded and the response to the recall
    query has a status outside 200-299, [recalls-by-vin] still returns: the
    list of recalls is empty and the vehicle description is the decoded
    one. *)
Theorem recalls_by_vin_recall_failure (now : string) (up : Upstream)
    (vin : string) (r : Response DecodeBody) (make model year : string)
    (recallResponse : Response RecallBody) :
  vpic_decodevin up (decodeUrl vin) = Resolved r →
  ok r = true →
  cleanVinResults (decode_Results (body r)) !! "Make" = Some make →
  cleanVinResults (decode_Results (body r)) !! "Model" = Some model →
  cleanVinResults (decode_Results (body r)) !! "Model Year" = Some year →
  nhtsa_recalls up (recallUrl (toLowerCase make) (toLowerCase model) year)
    = Resolved recallResponse →
  ok recallResponse = false →
  recalls_by_vin now up vin =
    MkAsync [decodeUrl vin;
             recallUrl (toLowerCase make) (toLowerCase model) year]
      (Returned {| ro_vin := toUpperCase vin;
                   ro_error := None;
                   ro_vehicle := Some (year +:+ " " +:+ make +:+ " " +:+ model);
                   ro_recallCount := 0;
                   ro_recalls := [];
                   ro_fetchedAt := Some now |}).
Proof.
  intros Hr Hok Hmake Hmodel Hyear Hrecall Hfail.
  rewrite (recalls_by_vin_resolved now up vin r make model year) by done.
  cbv zeta. by rewrite Hrecall, Hfail.
Qed.

(** ** Truncation *)

Lemma substring0_length (n : nat) (s : string) :
  String.length (substring0 n s) = (n `min` String.length s)%nat.
Proof.
  revert s. induction n as [|n IH]; intros [|c s]; simpl; try done.
  by rewrite IH.
Qed.

Lemma substring0_prefix (n : nat) (s : string) :
  ∃ rest, s = substring0 n s +:+ rest.
Proof.
  revert s. induction n as [|n IH]; intros s.
  - exists s. by destruct s.
  - destruct s as [|c s]; [by exists EmptyString|].
    destruct (IH s) as [rest Hrest]. exists rest.
    change (String c s = String c (substring0 n s +:+ rest)). congruence.
Qed.

(** What [l.slice(0, 20).map(f)] is, for any list [l]. *)
Lemma slice_map_truncated {A B} (f : A → B) (l : list A) :
  map f (take 20 l) = take 20 (map f l)
  ∧ (length (map f (take 20 l)) ≤ 20)%nat
  ∧ ((20 < length l)%nat → length (map f (take 20 l)) = 20%nat)
  ∧ (∀ i, (i < 20)%nat → map f (take 20 l) !! i = f <$> l !! i).
Proof.
  split; [by rewrite firstn_map|].
  rewrite length_map, length_take. split; [lia|]. split; [lia|].
  intros i Hi. change (map f (take 20 l)) with (f <$> take 20 l).
  by rewrite list_lookup_fmap, lookup_take_lt.
Qed.

Lemma complaints_run (now : string) (up : Upstream) (make model : string)
    (year : Z) :
  complaints now up make model year =
    let url := NHTSA_COMPLAINTS +:+ "?make=" +:+ encodeURIComponent make
               +:+ "&model=" +:+ encodeURIComponent model
               +:+ "&modelYear=" +:+ pretty year in
    MkAsync [url]
      match nhtsa_complaints up url with
      | Rejected e => Raised e
      | Resolved r =>
          if ok r then
            let upstream := default [] (complaint_results (body r)) in
            Returned {| co_vehicle :=
                          pretty year +:+ " " +:+ make +:+ " " +:+ model;
                        co_complaintCount := length upstream;
                        co_complaints :=
                          map complaint_record (take 20 upstream);
                        co_fetchedAt := now |}
          else Raised (Error ("NHTSA API error: " +:+ pretty (status r)))
      end.
Proof.
  unfold complaints. rewrite fetchJSON_run. cbv zeta.
  destruct (nhtsa_complaints up _) as [e|r]; [done|].
  by destruct (ok r).
Qed.

(** C6: the recalls returned by [recalls-by-vin] and the complaints returned
    by [complaints] are the first 20 entries of the normalized upstream list:
    at most 20 entries, exactly 20 when the upstream list is longer, entry
    [i] being the normalized upstream entry [i]; and the summary of a
    normalized complaint is the first 500 characters of the upstream
    summary. *)
Theorem lists_truncated_after_normalization :
  (∀ now up vin r make model year recallResponse,
     vpic_decodevin up (decodeUrl vin) = Resolved r →
     ok r = true →
     cleanVinResults (decode_Results (body r)) !! "Make" = Some make →
     cleanVinResults (decode_Results (body r)) !! "Model" = Some model →
     cleanVinResults (decode_Results (body r)) !! "Model Year" = Some year →
     nhtsa_recalls up (recallUrl (toLowerCase make) (toLowerCase model) year)
       = Resolved recallResponse →
     ok recallResponse = true →
     ∃ out,
       result (recalls_by_vin now up vin) = Returned out
       ∧ let upstream := default [] (recall_results (body recallResponse)) in
         ro_recalls out = take 20 (map recall_record upstream)
         ∧ (length (ro_recalls out) ≤ 20)%nat
         ∧ ((20 < length upstream)%nat → length (ro_recalls out) = 20%nat)
         ∧ (∀ i, (i < 20)%nat →
              ro_recalls out !! i = recall_record <$> upstream !! i))
  ∧ (∀ now up make model year r,
       nhtsa_complaints up
         (NHTSA_COMPLAINTS +:+ "?make=" +:+ encodeURIComponent make
          +:+ "&model=" +:+ encodeURIComponent model
          +:+ "&modelYear=" +:+ pretty year) = Resolved r →
       ok r = true →
       ∃ out,
         result (complaints now up make model year) = Returned out
         ∧ let upstream := default [] (complaint_results (body r)) in
           co_complaints out = take 20 (map complaint_record upstream)
           ∧ (length (co_complaints out) ≤ 20)%nat
           ∧ ((20 < length upstream)%nat →
                length (co_complaints out) = 20%nat)
           ∧ (∀ i, (i < 20)%nat →
                co_complaints out !! i = complaint_record <$> upstream !! i))
  ∧ (∀ c, cr_summary (complaint_record c) = substring0 500 <$> summary c)
  ∧ (∀ s, String.length (substring0 500 s) = (500 `min` String.length s)%nat
          ∧ ∃ rest, s = substring0 500 s +:+ rest).
Proof.
  split; [|split; [|split]].
  - intros now up vin r make model year recallResponse
      Hr Hok Hmake Hmodel Hyear Hrecall Hrok.
    rewrite (recalls_by_vin_resolved now up vin r make model year) by done.
    cbv zeta. rewrite Hrecall, Hrok. eexists. split; [reflexivity|].
    cbn [ro_recalls]. apply slice_map_truncated.
  - intros now up make model year r Hr Hok.
    rewrite complaints_run. cbv zeta. rewrite Hr, Hok.
    eexists. split; [reflexivity|].
    cbn [co_complaints]. apply slice_map_truncated.
  - done.
  - intros s. split; [apply substring0_length|apply substring0_prefix].
Qed.

(** C9: in [recalls-by-vin], [recallCount] is the length of the whole
    upstream list while the recalls returned are its first 20 entries at
    most; with more than 20 upstream rows the count exceeds the number of
    recalls returned. *)
Theorem recallCount_counts_untruncated (now : string) (up : Upstream)
    (vin : string) (r : Response DecodeBody) (make model year : string)
    (recallResponse : Response RecallBody) :
  vpic_decodevin up (decodeUrl vin) = Resolved r →
  ok r = true →
  cleanVinResults (decode_Results (body r)) !! "Make" = Some make →
  cleanVinResults (decode_Results (body r)) !! "Model" = Some model →
  cleanVinResults (decode_Results (body r)) !! "Model Year" = Some year →
  nhtsa_recalls up (recallUrl (toLowerCase make) (toLowerCase model) year)
    = Resolved recallResponse →
  ok recallResponse = true →
  ∃ out,
    result (recalls_by_vin now up vin) = Returned out
    ∧ let upstream := default [] (recall_results (body recallResponse)) in
      ro_recallCount out = length upstream
      ∧ length (ro_recalls out) = (20 `min` length upstream)%nat
      ∧ ((20 < length upstream)%nat →
           (length (ro_recalls out) < ro_recallCount out)%nat).
Proof.
  intros Hr Hok Hmake Hmodel Hyear Hrecall Hrok.
  rewrite (recalls_by_vin_resolved now up vin r make model year) by done.
  cbv zeta. rewrite Hrecall, Hrok. eexists. split; [reflexivity|].
  cbn [ro_recallCount ro_recalls]. rewrite length_map, length_take.
  split; [done|]. split; lia.
Qed.

(** ** [compare] *)

Lemma Returned_inj {A} : Inj (=) (=) (@Returned A).
Proof. by intros a1 a2 [= ->]. Qed.

Lemma all_returned_Returned {A} (os : list (outcome A)) (l : list A) :
  all_returned os = Returned l ↔ os = Returned <$> l.
Proof.
  revert l. induction os as [|[a|e] os IH]; intros l; simpl.
  - split; [intros [= <-]; done|]. by destruct l.
  - destruct (all_returned os) as [l'|e'] eqn:Hos.
    + split.
      * intros [= <-]. simpl. f_equal. by apply IH.
      * destruct l as [|a' l'']; [done|]. intros [= -> Hl].
        apply IH in Hl. congruence.
    + split; [done|]. destruct l as [|a' l'']; [done|]. intros [= -> Hl].
      apply IH in Hl. congruence.
  - split; [done|]. by destruct l.
Qed.

Lemma all_returned_Raised {A} (os : list (outcome A)) (e : JsError) :
  all_returned os = Raised e → Raised e ∈ os.
Proof.
  induction os as [|[a|e'] os IH]; simpl; [done| |].
  - destruct (all_returned os); [done|]. intros [= <-]. right. by apply IH.
  - intros [= <-]. left.
Qed.

Lemma all_returned_elem_Raised {A} (os : list (outcome A)) (e : JsError) :
  Raised e ∈ os → ∃ e', all_returned os = Raised e'.
Proof.
  induction os as [|[a|e'] os IH]; simpl.
  - by intros ?%elem_of_nil.
  - intros [?|Hin]%elem_of_cons; [done|].
    destruct (IH Hin) as [e'' ->]. by eexists.
  - intros _. by eexists.
Qed.

(** The run of the pipeline of one subject. *)
Lemma compare_subject_run (up : Upstream) (vin : string) :
  compare_subject up vin =
    match vpic_decodevin up (decodeUrl vin) with
    | Rejected e => MkAsync [decodeUrl vin] (Raised e)
    | Resolved r =>
        if ok r then
          MkAsync [decodeUrl vin; recallsByVinUrl vin]
            (Returned
               (comparison_row (toUpperCase vin)
                  (cleanVinResults (decode_Results (body r)))
                  (recall_count_of
                     (nhtsa_recalls up (recallsByVinUrl vin)))))
        else
          MkAsync [decodeUrl vin]
            (Raised (Error ("NHTSA API error: " +:+ pretty (status r))))
    end.
Proof.
  unfold compare_subject. fold (decodeUrl vin) (recallsByVinUrl vin).
  rewrite !fetchJSON_run.
  destruct (vpic_decodevin up (decodeUrl vin)) as [e|r]; [done|].
  destruct (ok r); [|done]. rewrite bind_Returned.
  unfold recall_count_of.
  destruct (nhtsa_recalls up (recallsByVinUrl vin)) as [e|r2]; [done|].
  by destruct (ok r2).
Qed.

Lemma compare_subject_Returned (up : Upstream) (vin : string)
    (row : ComparisonRow) :
  result (compare_subject up vin) = Returned row →
  ∃ r, vpic_decodevin up (decodeUrl vin) = Resolved r ∧ ok r = true
       ∧ row = comparison_row (toUpperCase vin)
                 (cleanVinResults (decode_Results (body r)))
                 (recall_count_of (nhtsa_recalls up (recallsByVinUrl vin))).
Proof.
  rewrite compare_subject_run.
  destruct (vpic_decodevin up (decodeUrl vin)) as [e|r]; [done|].
  destruct (ok r) eqn:Hok; [|done]. intros [= <-]. by exists r.
Qed.

Lemma recall_count_of_failed (fr : FetchResult RecallBody) :
  lookup_failed fr = true → recall_count_of fr = 0%nat.
Proof.
  destruct fr as [e|r]; [done|]. simpl. by intros ->%negb_true_iff.
Qed.

Lemma compare_run (now : string) (ups : nat → Upstream) (vins : list string) :
  compare now ups vins =
    let ps := imap (λ i vin, compare_subject (ups i) vin) vins in
    MkAsync (concat (map requests ps))
      match all_returned (map result ps) with
      | Returned rows => Returned {| comparison := rows; comparedAt := now |}
      | Raised e => Raised e
      end.
Proof.
  unfold compare, Promise_all. cbv zeta.
  unfold mbind, Async_bind. cbn [result requests].
  destruct (all_returned _); [|done]. by rewrite app_nil_r.
Qed.

Lemma compare_Returned (now : string) (ups : nat → Upstream)
    (vins : list string) (out : CompareOutput) :
  result (compare now ups vins) = Returned out ↔
  comparedAt out = now
  ∧ ∀ i, (λ vin, result (compare_subject (ups i) vin)) <$> vins !! i
         = Returned <$> comparison out !! i.
Proof.
  rewrite compare_run. cbv zeta. cbn [result].
  set (ps := imap _ vins).
  assert (∀ rows,
            map result ps = Returned <$> rows ↔
            ∀ i, (λ vin, result (compare_subject (ups i) vin)) <$> vins !! i
                 = Returned <$> rows !! i) as Hrows.
  { intros rows. split.
    - intros Heq i. rewrite <- (list_lookup_fmap Returned rows), <- Heq.
      change (map result ps) with (result <$> ps).
      rewrite list_lookup_fmap. unfold ps. rewrite list_lookup_imap.
      by destruct (vins !! i).
    - intros Hi. apply list_eq. intros i.
      change (map result ps) with (result <$> ps).
      rewrite !list_lookup_fmap. unfold ps. rewrite list_lookup_imap.
      rewrite <- Hi. by destruct (vins !! i). }
  destruct (all_returned (map result ps)) as [rows|e] eqn:Hall.
  - apply all_returned_Returned in Hall. split.
    + intros [= <-]. split; [done|]. by apply Hrows.
    + intros [Hnow Hi]. apply Hrows in Hi. rewrite Hall in Hi.
      apply (list_fmap_eq_inj Returned Returned_inj) in Hi.
      destruct out. simpl in *. congruence.
  - split; [done|]. intros [_ Hi]. apply Hrows in Hi.
    apply all_returned_Returned in Hi. congruence.
Qed.

Lemma compare_Returned_length (now : string) (ups : nat → Upstream)
    (vins : list string) (out : CompareOutput) :
  result (compare now ups vins) = Returned out →
  length (comparison out) = length vins.
Proof.
  intros [_ Hi]%compare_Returned.
  assert (∀ i, (i < length (comparison out))%nat ↔ (i < length vins)%nat)
    as Hlt.
  { intros i. rewrite <- !lookup_lt_is_Some. specialize (Hi i).
    destruct (vins !! i), (comparison out !! i); simplify_eq/=;
      split; intros [? ?]; eauto; done. }
  pose proof (Hlt (length vins)). pose proof (Hlt (length (comparison out))).
  lia.
Qed.

Lemma compare_Returned_lookup (now : string) (ups : nat → Upstream)
    (vins : list string) (out : CompareOutput) (i : nat) (vin : string) :
  result (compare now ups vins) = Returned out →
  vins !! i = Some vin →
  ∃ row, comparison out !! i = Some row
         ∧ result (compare_subject (ups i) vin) = Returned row.
Proof.
  intros [_ Hi]%compare_Returned Hvin. specialize (Hi i).
  rewrite Hvin in Hi. destruct (comparison out !! i) as [row|]; [|done].
  exists row. split; [done|]. by simplify_eq/=.
Qed.

(** C3: let the auxiliary recall lookup of the subject at index [j] fail,
    and compare with any upstream [ups'] that differs from [ups] in the
    answer to that lookup only.  When [compare] returns under [ups'], it
    returns under [ups]: one row for each input, row [i] being the row of
    input [i]; the row of subject [j] has a recall count of 0 and is
    otherwise the row returned under [ups']; every other row is the row
    returned under [ups']. *)
Theorem compare_isolates_recall_failure (now : string)
    (ups ups' : nat → Upstream) (vins : list string) (j : nat)
    (out' : CompareOutput) :
  (∀ i, i ≠ j → ups i = ups' i) →
  vpic_decodevin (ups j) = vpic_decodevin (ups' j) →
  (∀ vin, vins !! j = Some vin →
          lookup_failed (nhtsa_recalls (ups j) (recallsByVinUrl vin)) = true) →
  result (compare now ups' vins) = Returned out' →
  ∃ out,
    result (compare now ups vins) = Returned out
    ∧ length (comparison out) = length vins
    ∧ (∀ i vin, vins !! i = Some vin →
         ∃ row, comparison out !! i = Some row
                ∧ row_vin row = toUpperCase vin)
    ∧ (∀ row, comparison out !! j = Some row → row_recallCount row = 0%nat)
    ∧ comparison out !! j = set_recallCount 0 <$> comparison out' !! j
    ∧ (∀ i, i ≠ j → comparison out !! i = comparison out' !! i).
Proof.
  intros Hother Hdec Hfail Hret'.
  pose proof Hret' as [Hnow' Hi']%compare_Returned.
  set (rows := alter (set_recallCount 0) j (comparison out')).
  assert (result (compare now ups vins)
          = Returned {| comparison := rows; comparedAt := now |}) as Hret.
  { apply compare_Returned. split; [done|]. intros i. cbn [comparison].
    unfold rows. destruct (decide (i = j)) as [->|Hne].
    - rewrite list_lookup_alter_eq. specialize (Hi' j).
      destruct (vins !! j) as [vin|] eqn:Hvin.
      + destruct (comparison out' !! j) as [row'|]; [|done].
        injection Hi' as Hrow'.
        apply compare_subject_Returned in Hrow' as (r & Hr & Hok & ->).
        cbn [fmap option_fmap option_map]. f_equal.
        rewrite compare_subject_run, Hdec, Hr, Hok.
        by rewrite (recall_count_of_failed _ (Hfail vin eq_refl)).
      + by destruct (comparison out' !! j).
    - rewrite list_lookup_alter_ne by done. rewrite Hother by done.
      apply Hi'. }
  eexists. split; [exact Hret|]. cbn [comparison].
  split; [apply (compare_Returned_length _ _ _ _ Hret)|].
  split; [|split; [|split]].
  - intros i vin Hvin.
    destruct (compare_Returned_lookup _ _ _ _ _ _ Hret Hvin)
      as (row & Hrow & Hsub).
    exists row. split; [done|].
    by apply compare_subject_Returned in Hsub as (r & _ & _ & ->).
  - unfold rows. rewrite list_lookup_alter_eq. intros row Hrow.
    destruct (comparison out' !! j); by simplify_eq/=.
  - apply list_lookup_alter_eq.
  - intros i Hne. by apply list_lookup_alter_ne.
Qed.

(** C4: when the decode response of one subject has a status outside
    200-299, [compare] raises an error, whatever the recall lookups answer:
    it returns no rows.  The error is the one raised by the pipeline of a
    subject. *)
Theorem compare_fails_on_decode_failure (now : string)
    (ups : nat → Upstream) (vins : list string) (j : nat) (vin : string)
    (r : Response DecodeBody) :
  vins !! j = Some vin →
  vpic_decodevin (ups j) (decodeUrl vin) = Resolved r →
  ok r = false →
  ∃ e,
    result (compare now ups vins) = Raised e
    ∧ ∃ i v, vins !! i = Some v
             ∧ result (compare_subject (ups i) v) = Raised e.
Proof.
  intros Hvin Hr Hok. rewrite compare_run. cbv zeta. cbn [result].
  set (ps := imap _ vins).
  assert (Raised (Error ("NHTSA API error: " +:+ pretty (status r)))
          ∈ map result ps) as Hin.
  { apply (list_elem_of_fmap_2' result _ (compare_subject (ups j) vin)).
    - unfold ps.
      by apply (elem_of_lookup_imap_2 (λ i v, compare_subject (ups i) v) _ _ _ Hvin).
    - by rewrite compare_subject_run, Hr, Hok. }
  apply all_returned_elem_Raised in Hin as [e He]. rewrite He.
  exists e. split; [done|].
  apply all_returned_Raised in He.
  apply list_elem_of_fmap in He as (p & Hp & Hin).
  apply elem_of_lookup_imap in Hin as (i & v & -> & Hv). eauto.
Qed.

(** C10: [compare] does not check that the identity is resolved.  For a
    subject whose decode response has a success status and whose cleaned
    spec lacks "Make", "Model" or "Model Year", the pipeline requests the
    decode and then the auxiliary recall lookup, and returns a row in which
    the fields that the spec lacks are absent; the lookup is among the
    requests of [compare], the row is the row of that subject whenever
    [compare] returns, and [compare] returns when the decode response of
    every subject has a success status. *)
Theorem compare_skips_identity_check (now : string) (ups : nat → Upstream)
    (vins : list string) (j : nat) (vin : string) (r : Response DecodeBody) :
  vins !! j = Some vin →
  vpic_decodevin (ups j) (decodeUrl vin) = Resolved r →
  ok r = true →
  identity_missing (cleanVinResults (decode_Results (body r))) →
  let specs := cleanVinResults (decode_Results (body r)) in
  let row :=
    comparison_row (toUpperCase vin) specs
      (recall_count_of (nhtsa_recalls (ups j) (recallsByVinUrl vin))) in
  compare_subject (ups j) vin
    = MkAsync [decodeUrl vin; recallsByVinUrl vin] (Returned row)
  ∧ row_make row = specs !! "Make"
  ∧ row_model row = specs !! "Model"
  ∧ row_year row = specs !! "Model Year"
  ∧ (row_make row = None ∨ row_model row = None ∨ row_year row = None)
  ∧ recallsByVinUrl vin ∈ requests (compare now ups vins)
  ∧ (∀ out, result (compare now ups vins) = Returned out →
            comparison out !! j = Some row)
  ∧ ((∀ i v, vins !! i = Some v →
        ∃ r', vpic_decodevin (ups i) (decodeUrl v) = Resolved r'
              ∧ ok r' = true) →
     ∃ out, result (compare now ups vins) = Returned out).
Proof.
  intros Hvin Hr Hok Hmiss specs row.
  assert (compare_subject (ups j) vin
          = MkAsync [decodeUrl vin; recallsByVinUrl vin] (Returned row))
    as Hrun by (by rewrite compare_subject_run, Hr, Hok).
  split; [done|]. do 3 (split; [done|]). split; [exact Hmiss|].
  split; [|split].
  - rewrite compare_run. cbv zeta. cbn [requests].
    apply list_elem_of_In, in_concat.
    exists [decodeUrl vin; recallsByVinUrl vin]. split.
    + apply list_elem_of_In.
      apply (list_elem_of_fmap_2' requests _ (compare_subject (ups j) vin)).
      * by apply (elem_of_lookup_imap_2 (λ i v, compare_subject (ups i) v) _ _ _ Hvin).
      * by rewrite Hrun.
    + right. by left.
  - intros out Hret.
    destruct (compare_Returned_lookup _ _ _ _ _ _ Hret Hvin)
      as (row' & Hrow' & Hsub).
    rewrite Hrun in Hsub. by simplify_eq/=.
  - intros Hall. rewrite compare_run. cbv zeta. cbn [result].
    destruct (all_returned _) as [rows|e] eqn:Hres; [by eexists|].
    apply all_returned_Raised in Hres.
    apply list_elem_of_fmap in Hres as (p & Hp & Hin).
    apply elem_of_lookup_imap in Hin as (i & v & -> & Hv).
    destruct (Hall i v Hv) as (r' & Hr' & Hok').
    by rewrite compare_subject_run, Hr', Hok' in Hp.
Qed.

(** ** Case normalization *)

Lemma upper_char_not_lower (c : ascii) :
  is_lower_letter (upper_char c) = false.
Proof. destruct c as [[] [] [] [] [] [] [] []]; vm_compute; reflexivity. Qed.

Lemma lower_char_not_upper (c : ascii) :
  is_upper_letter (lower_char c) = false.
Proof. destruct c as [[] [] [] [] [] [] [] []]; vm_compute; reflexivity. Qed.

Lemma ascii_toUpperCase_upper (s : string) :
  all_chars (λ c, negb (is_lower_letter c)) (ascii_toUpperCase s) = true
  ∧ String.length (ascii_toUpperCase s) = String.length s.
Proof.
  unfold ascii_toUpperCase. induction s as [|c s [IH1 IH2]]; [done|].
  cbn [map_chars all_chars String.length].
  by rewrite upper_char_not_lower, IH1, IH2.
Qed.

Lemma ascii_toLowerCase_lower (s : string) :
  all_chars (λ c, negb (is_upper_letter c)) (ascii_toLowerCase s) = true
  ∧ String.length (ascii_toLowerCase s) = String.length s.
Proof.
  unfold ascii_toLowerCase. induction s as [|c s [IH1 IH2]]; [done|].
  cbn [map_chars all_chars String.length].
  by rewrite lower_char_not_upper, IH1, IH2.
Qed.

Lemma uri_decode_step (c : ascii) (rest : string) (n : nat) :
  uri_decode (S n)
    ((if uri_unreserved c then String c EmptyString else percent_escape c)
     +:+ rest)
  = String c (uri_decode n rest).
Proof. destruct c as [[] [] [] [] [] [] [] []]; reflexivity. Qed.

Lemma uri_decode_encode (s : string) (n : nat) :
  (String.length s ≤ n)%nat → uri_decode n (encodeURIComponent s) = s.
Proof.
  revert n. induction s as [|c s IH]; intros n Hn.
  - by destruct n.
  - destruct n as [|n]; [simpl in Hn; lia|].
    cbn [encodeURIComponent]. rewrite uri_decode_step, IH; [done|].
    simpl in Hn. lia.
Qed.

Lemma encodeURIComponent_inj (s1 s2 : string) :
  encodeURIComponent s1 = encodeURIComponent s2 → s1 = s2.
Proof.
  intros Heq.
  pose proof (uri_decode_encode s1 (String.length s1 + String.length s2)) as H1.
  pose proof (uri_decode_encode s2 (String.length s1 + String.length s2)) as H2.
  rewrite Heq in H1. transitivity
    (uri_decode (String.length s1 + String.length s2) (encodeURIComponent s2)).
  - symmetry. apply H1. lia.
  - apply H2. lia.
Qed.

Lemma compare_pipelines_upper (ups : nat → Upstream) (vins vins' : list string) :
  toUpperCase <$> vins = toUpperCase <$> vins' →
  imap (λ i vin, compare_subject (ups i) vin) vins
  = imap (λ i vin, compare_subject (ups i) vin) vins'.
Proof.
  revert ups vins'. induction vins as [|v vins IH]; intros ups [|v' vins'];
    try done.
  rewrite !fmap_cons. intros [= Hv Hvins]. cbn [imap]. f_equal.
  - unfold compare_subject. by rewrite Hv.
  - apply (IH (λ i, ups (S i))), Hvins.
Qed.

(** C8: the handlers that take an identification number use its upper-cased
    form only: the decode request and the [vin] of the result carry it, in
    [compare] the recall lookup too, and two spellings with one upper-cased
    form are handled alike; on ASCII text the upper-cased form has the
    length of the input and no lower-case letter, so "1hgcm82633a004352" is
    looked up as "1HGCM82633A004352".  The recall query of [recalls-by-vin]
    carries the lower-cased make and model and the model year as decoded
    (for "HONDA", "ACCORD" and "2003":
    [make=honda&model=accord&modelYear=2003]), while the vehicle description
    keeps the decoded spelling; [models] and [complaints] put make and model
    in their request and result as given. *)
Theorem case_normalization :
  (∀ now up v1 v2,
     toUpperCase v1 = toUpperCase v2 →
     decode_vin now up v1 = decode_vin now up v2
     ∧ recalls_by_vin now up v1 = recalls_by_vin now up v2)
  ∧ (∀ now up vin,
       requests (decode_vin now up vin)
       = [NHTSA_VPIC +:+ "/decodevin/" +:+ toUpperCase vin
          +:+ "?format=json"]
       ∧ ∀ out, result (decode_vin now up vin) = Returned out →
                d_vin out = toUpperCase vin)
  ∧ (∀ now up vin,
       head (requests (recalls_by_vin now up vin))
       = Some (NHTSA_VPIC +:+ "/decodevin/" +:+ toUpperCase vin
               +:+ "?format=json")
       ∧ ∀ out, result (recalls_by_vin now up vin) = Returned out →
                ro_vin out = toUpperCase vin)
  ∧ (∀ now ups vins,
       (∀ vins', toUpperCase <$> vins = toUpperCase <$> vins' →
                 compare now ups vins = compare now ups vins')
       ∧ (∀ u, u ∈ requests (compare now ups vins) →
               ∃ vin, vin ∈ vins
                      ∧ (u = NHTSA_VPIC +:+ "/decodevin/" +:+ toUpperCase vin
                             +:+ "?format=json"
                         ∨ u = NHTSA_RECALLS +:+ "?vin=" +:+ toUpperCase vin))
       ∧ ∀ out, result (compare now ups vins) = Returned out →
                row_vin <$> comparison out = toUpperCase <$> vins)
  ∧ (∀ vin, is_ascii vin = true →
       all_chars (λ c, negb (is_lower_letter c)) (toUpperCase vin) = true
       ∧ String.length (toUpperCase vin) = String.length vin)
  ∧ (∀ now up,
       requests (decode_vin now up "1hgcm82633a004352")
       = ["https://vpic.nhtsa.dot.gov/api/vehicles/decodevin/1HGCM82633A004352?format=json"])
  ∧ (∀ now up vin r make model year,
       vpic_decodevin up (decodeUrl vin) = Resolved r →
       ok r = true →
       cleanVinResults (decode_Results (body r)) !! "Make" = Some make →
       cleanVinResults (decode_Results (body r)) !! "Model" = Some model →
       cleanVinResults (decode_Results (body r)) !! "Model Year" = Some year →
       requests (recalls_by_vin now up vin)
       = [decodeUrl vin;
          "https://api.nhtsa.gov/recalls/recallsByVehicle?make="
          +:+ encodeURIComponent (toLowerCase make) +:+ "&model="
          +:+ encodeURIComponent (toLowerCase model) +:+ "&modelYear="
          +:+ year]
       ∧ ∀ out, result (recalls_by_vin now up vin) = Returned out →
                ro_vehicle out
                = Some (year +:+ " " +:+ make +:+ " " +:+ model))
  ∧ (∀ make, is_ascii make = true →
       all_chars (λ c, negb (is_upper_letter c)) (toLowerCase make) = true
       ∧ String.length (toLowerCase make) = String.length make)
  ∧ (∀ now up r,
       vpic_decodevin up
         "https://vpic.nhtsa.dot.gov/api/vehicles/decodevin/1HGCM82633A004352?format=json"
       = Resolved r →
       ok r = true →
       cleanVinResults (decode_Results (body r)) !! "Make" = Some "HONDA" →
       cleanVinResults (decode_Results (body r)) !! "Model" = Some "ACCORD" →
       cleanVinResults (decode_Results (body r)) !! "Model Year"
         = Some "2003" →
       requests (recalls_by_vin now up "1hgcm82633a004352")
       = ["https://vpic.nhtsa.dot.gov/api/vehicles/decodevin/1HGCM82633A004352?format=json";
          "https://api.nhtsa.gov/recalls/recallsByVehicle?make=honda&model=accord&modelYear=2003"])
  ∧ (∀ now up make,
       requests (models now up make)
       = [NHTSA_VPIC +:+ "/GetModelsForMake/" +:+ encodeURIComponent make
          +:+ "?format=json"]
       ∧ ∀ out, result (models now up make) = Returned out →
                mo_make out = make)
  ∧ (∀ now up make model year,
       requests (complaints now up make model year)
       = [NHTSA_COMPLAINTS +:+ "?make=" +:+ encodeURIComponent make
          +:+ "&model=" +:+ encodeURIComponent model
          +:+ "&modelYear=" +:+ pretty year]
       ∧ ∀ out, result (complaints now up make model year) = Returned out →
                co_vehicle out
                = pretty year +:+ " " +:+ make +:+ " " +:+ model)
  ∧ (∀ s1 s2, encodeURIComponent s1 = encodeURIComponent s2 → s1 = s2).
Proof.
  assert (toUpperCase "1hgcm82633a004352" = "1HGCM82633A004352") as Hvin
    by (by rewrite toUpperCase_ascii).
  assert (∀ now up vin,
            requests (decode_vin now up vin) = [decodeUrl vin]) as Hdecode.
  { intros now up vin. unfold decode_vin. fold (decodeUrl vin).
    rewrite fetchJSON_run.
    by destruct (vpic_decodevin up _) as [e|r]; [|destruct (ok r)]. }
  split; [|split; [|split; [|split; [|split; [|split; [|split; [|split;
    [|split; [|split; [|split]]]]]]]]]].
  - intros now up v1 v2 Heq. split.
    + unfold decode_vin. by rewrite Heq.
    + unfold recalls_by_vin. by rewrite Heq.
  - intros now up vin. split; [apply Hdecode|].
    unfold decode_vin. rewrite fetchJSON_run.
    destruct (vpic_decodevin up _) as [e|r]; [done|].
    destruct (ok r); [|done]. by intros out [= <-].
  - intros now up vin. split.
    + unfold recalls_by_vin. rewrite fetchJSON_run.
      destruct (vpic_decodevin up _) as [e|r]; [done|].
      by destruct (ok r).
    + unfold recalls_by_vin. rewrite fetchJSON_run.
      destruct (vpic_decodevin up _) as [e|r]; [done|].
      destruct (ok r); [|done]. rewrite bind_Returned.
      destruct (negb _ || negb _ || negb _); [by intros out [= <-]|].
      destruct (_ !! "Make") as [make|]; [|done].
      destruct (_ !! "Model") as [model|]; [|done].
      cbn [method_toLowerCase]. unfold mret, Async_ret.
      rewrite !bind_Returned. unfold fetch.
      destruct (nhtsa_recalls up _) as [e|r2]; [done|].
      by intros out [= <-].
  - intros now ups vins. split; [|split].
    + intros vins' Heq. unfold compare. do 2 f_equal.
      by apply compare_pipelines_upper.
    + intros u. rewrite compare_run. cbv zeta. cbn [requests].
      intros (l & Hl & Hu)%list_elem_of_In%in_concat.
      apply list_elem_of_In, list_elem_of_fmap in Hl as (p & -> & Hp).
      apply elem_of_lookup_imap in Hp as (i & vin & -> & Hvin').
      exists vin. split; [by eapply list_elem_of_lookup_2|].
      apply list_elem_of_In in Hu. revert Hu. rewrite compare_subject_run.
      fold (decodeUrl vin) (recallsByVinUrl vin).
      destruct (vpic_decodevin (ups i) _) as [e|r]; [|destruct (ok r)];
        cbn [requests]; intros Hu;
        repeat (apply elem_of_cons in Hu as [->|Hu]; [by eauto|]);
        by apply elem_of_nil in Hu.
    + intros out Hret. apply list_eq. intros i.
      rewrite !list_lookup_fmap.
      destruct (vins !! i) as [vin|] eqn:Hi.
      * destruct (compare_Returned_lookup _ _ _ _ _ _ Hret Hi)
          as (row & -> & Hsub).
        apply compare_subject_Returned in Hsub as (r & _ & _ & ->). done.
      * apply lookup_ge_None in Hi.
        rewrite <- (compare_Returned_length _ _ _ _ Hret) in Hi.
        apply lookup_ge_None in Hi. by rewrite Hi.
  - intros vin Hascii. rewrite (toUpperCase_ascii vin Hascii).
    apply ascii_toUpperCase_upper.
  - intros now up. rewrite Hdecode. unfold decodeUrl. by rewrite Hvin.
  - intros now up vin r make model year Hr Hok Hmake Hmodel Hyear.
    rewrite (recalls_by_vin_resolved now up vin r make model year) by done.
    cbv zeta. split; [done|].
    cbn [result]. destruct (nhtsa_recalls up _) as [e|r2]; [done|].
    by intros out [= <-].
  - intros make Hascii. rewrite (toLowerCase_ascii make Hascii).
    apply ascii_toLowerCase_lower.
  - intros now up r Hr Hok Hmake Hmodel Hyear.
    assert (decodeUrl "1hgcm82633a004352"
            = "https://vpic.nhtsa.dot.gov/api/vehicles/decodevin/1HGCM82633A004352?format=json")
      as Hurl by (unfold decodeUrl; by rewrite Hvin).
    rewrite <- Hurl in Hr.
    rewrite (recalls_by_vin_resolved now up _ r "HONDA" "ACCORD" "2003")
      by done.
    cbv zeta. cbn [requests]. rewrite Hurl.
    by rewrite (toLowerCase_ascii "HONDA"), (toLowerCase_ascii "ACCORD").
  - intros now up make. unfold models. rewrite fetchJSON_run.
    destruct (vpic_models up _) as [e|r]; [done|].
    destruct (ok r); [|done]. split; [done|]. by intros out [= <-].
  - intros now up make model year. rewrite complaints_run. cbv zeta.
    split; [done|]. cbn [result].
    destruct (nhtsa_complaints up _) as [e|r]; [done|].
    destruct (ok r); [|done]. by intros out [= <-].
  - apply encodeURIComponent_inj.
Qed.

(** * Further properties *)

(** ** The normalizer as a dictionary built from a list *)

Lemma meaningful_pairs_cons (item : RawAttribute) (rest : list RawAttribute) :
  meaningful_pairs (item :: rest) =
    match item_Value item with
    | Some v =>
        if meaningful (item_Value item)
        then (item_Variable item, v) :: meaningful_pairs rest
        else meaningful_pairs rest
    | None => meaningful_pairs rest
    end.
Proof.
  unfold meaningful_pairs. cbn [omap list_omap].
  destruct (item_Value item) as [v|]; [|done].
  by destruct (meaningful (Some v)).
Qed.

Lemma meaningful_pairs_app (l1 l2 : list RawAttribute) :
  meaningful_pairs (l1 ++ l2) = meaningful_pairs l1 ++ meaningful_pairs l2.
Proof. apply omap_app. Qed.

Lemma length_meaningful_pairs (l : list RawAttribute) :
  (length (meaningful_pairs l) ≤ length l)%nat.
Proof.
  induction l as [|item rest IH]; [done|].
  rewrite meaningful_pairs_cons. cbn [length].
  destruct (item_Value item); [destruct (meaningful _)|]; cbn [length]; lia.
Qed.

Lemma elem_of_meaningful_pairs (k v : string) (l : list RawAttribute) :
  (k, v) ∈ meaningful_pairs l ↔
  attr k (Some v) ∈ l ∧ meaningful (Some v) = true.
Proof.
  unfold meaningful_pairs. rewrite list_elem_of_omap. split.
  - intros ([k' v'] & Hin & Heq). cbn [item_Value item_Variable] in Heq.
    destruct (meaningful v') eqn:Hm; [|done].
    destruct v' as [s|]; [|done]. by simplify_eq/=.
  - intros [Hin Hm]. exists (attr k (Some v)). split; [done|].
    cbn [attr item_Value item_Variable]. by rewrite Hm.
Qed.

Lemma stored_pairs_cons (item : RawAttribute) (rest : list RawAttribute) :
  stored_pairs (item :: rest) =
    match item_Value item with
    | Some v =>
        if meaningful (item_Value item)
        then if bool_decide (item_Variable item = "__proto__")
             then stored_pairs rest
             else (item_Variable item, v) :: stored_pairs rest
        else stored_pairs rest
    | None => stored_pairs rest
    end.
Proof.
  unfold stored_pairs. rewrite meaningful_pairs_cons.
  destruct (item_Value item) as [v|]; [|done].
  destruct (meaningful (Some v)); [|done].
  rewrite filter_cons. cbn [fst].
  destruct (decide (item_Variable item ≠ "__proto__")) as [Hp|Hp].
  - by rewrite (bool_decide_eq_false_2 _ Hp).
  - apply dec_stable in Hp. by rewrite (bool_decide_eq_true_2 _ Hp).
Qed.

Lemma stored_pairs_app (l1 l2 : list RawAttribute) :
  stored_pairs (l1 ++ l2) = stored_pairs l1 ++ stored_pairs l2.
Proof. unfold stored_pairs. by rewrite meaningful_pairs_app, filter_app. Qed.

Lemma stored_pairs_NoDup (l : list RawAttribute) :
  NoDup (meaningful_pairs l).*1 → NoDup (stored_pairs l).*1.
Proof.
  intros Hnd. apply (sublist_NoDup _ _ Hnd).
  apply fmap_sublist, sublist_filter.
Qed.

(** The loop of [cleanVinResults] adds the stored pairs to the dictionary it
    starts from, a later pair hiding an earlier one. *)
Lemma clean_loop_list_to_map (results : list RawAttribute)
    (m : gmap string string) :
  fold_left
    (λ cleaned item,
       if truthy (item_Value item) && strict_ne (item_Value item) ""
          && strict_ne (item_Value item) "Not Applicable"
       then match item_Value item with
            | Some v => set_property (item_Variable item) v cleaned
            | None => cleaned
            end
       else cleaned)
    results m
  = list_to_map (reverse (stored_pairs results)) ∪ m.
Proof.
  revert m. induction results as [|item rest IH]; intros m.
  - cbn. by rewrite (left_id_L ∅ (∪)).
  - cbn [fold_left]. rewrite IH, stored_pairs_cons, guard_meaningful.
    destruct (item_Value item) as [v|]; [|done].
    destruct (meaningful (Some v)); [|done]. unfold set_property.
    destruct (bool_decide (item_Variable item = "__proto__")); [done|].
    rewrite reverse_cons, list_to_map_app, <- (assoc_L (∪)). f_equal.
    cbn [list_to_map foldr uncurry]. unfold uncurry. cbn [fst snd].
    by rewrite <- insert_union_l, (left_id_L ∅ (∪)).
Qed.

Lemma cleanVinResults_list_to_map (results : list RawAttribute) :
  cleanVinResults results = list_to_map (reverse (stored_pairs results)).
Proof.
  unfold cleanVinResults.
  by rewrite clean_loop_list_to_map, (right_id_L ∅ (∪)).
Qed.

Lemma cleanVinResults_distinct (results : list RawAttribute) :
  NoDup (meaningful_pairs results).*1 →
  cleanVinResults results = list_to_map (stored_pairs results).
Proof.
  intros Hnd%stored_pairs_NoDup. rewrite cleanVinResults_list_to_map.
  apply list_to_map_proper.
  - by rewrite fmap_reverse, reverse_Permutation.
  - apply reverse_Permutation.
Qed.

(** X1: normalizing the concatenation of two lists gives the union of the
    two cleaned specs in which the second list has priority. *)
Theorem cleanVinResults_app (l1 l2 : list RawAttribute) :
  cleanVinResults (l1 ++ l2) = cleanVinResults l2 ∪ cleanVinResults l1.
Proof.
  rewrite !cleanVinResults_list_to_map, stored_pairs_app, reverse_app.
  apply list_to_map_app.
Qed.

(** X2: removing from the list the pairs whose value is [null], empty or
    "Not Applicable" does not change the cleaned spec. *)
Theorem cleanVinResults_filter (l : list RawAttribute) :
  cleanVinResults (filter (λ item, meaningful (item_Value item)) l)
  = cleanVinResults l.
Proof.
  rewrite !cleanVinResults_list_to_map. unfold stored_pairs. do 3 f_equal.
  induction l as [|item rest IH]; [done|].
  rewrite filter_cons. destruct (decide _) as [Hm|Hm].
  - rewrite !meaningful_pairs_cons, IH. done.
  - rewrite IH, meaningful_pairs_cons.
    destruct (item_Value item); [|done].
    by destruct (meaningful (Some s)).
Qed.

(** X3: when the meaningful pairs of a list have pairwise distinct
    variables, the order of the list does not matter: a permutation of the
    list has the same cleaned spec. *)
Theorem cleanVinResults_Permutation (l l' : list RawAttribute) :
  NoDup (meaningful_pairs l).*1 →
  l ≡ₚ l' →
  cleanVinResults l = cleanVinResults l'.
Proof.
  intros Hnd Hperm.
  assert (meaningful_pairs l ≡ₚ meaningful_pairs l') as Hpairs.
  { unfold meaningful_pairs. by rewrite Hperm. }
  rewrite (cleanVinResults_distinct l Hnd).
  rewrite (cleanVinResults_distinct l') by (by rewrite <- Hpairs).
  apply list_to_map_proper; [by apply stored_pairs_NoDup|].
  unfold stored_pairs. by rewrite Hpairs.
Qed.

Lemma cleanVinResults_meaningful (results : list RawAttribute)
    (k v : string) :
  cleanVinResults results !! k = Some v → meaningful (Some v) = true.
Proof.
  intros (_ & ? & ?)%cleanVinResults_Some.
  apply meaningful_Some. by exists v.
Qed.

Lemma filter_all {A} (P : A → Prop) `{!∀ x, Decision (P x)} (l : list A) :
  Forall P l → filter P l = l.
Proof.
  induction 1 as [|x l Hx _ IH]; [done|].
  rewrite filter_cons, decide_True by done. by rewrite IH.
Qed.

Lemma cleanVinResults_to_attributes (specs : gmap string string) :
  specs !! "__proto__" = None →
  (∀ k v, specs !! k = Some v → meaningful (Some v) = true) →
  cleanVinResults (to_attributes specs) = specs.
Proof.
  intros Hproto Hspecs.
  assert (meaningful_pairs (to_attributes specs) = map_to_list specs) as Hps.
  { unfold to_attributes.
    assert (Forall (λ kv, meaningful (Some kv.2) = true) (map_to_list specs))
      as Hall.
    { apply Forall_forall. intros [k v] Hkv%elem_of_map_to_list.
      by apply (Hspecs k). }
    induction Hall as [|[k v] rest Hkv _ IH]; [done|].
    rewrite fmap_cons, meaningful_pairs_cons.
    cbn [attr item_Value item_Variable fst snd].
    cbn [snd] in Hkv. by rewrite Hkv, IH. }
  assert (stored_pairs (to_attributes specs) = map_to_list specs) as Hst.
  { unfold stored_pairs. rewrite Hps.
    assert (Forall (λ kv : string * string, kv.1 ≠ "__proto__")
              (map_to_list specs)) as Hall.
    { apply Forall_forall. intros [k v] Hkv%elem_of_map_to_list.
      cbn [fst]. congruence. }
    by apply filter_all. }
  rewrite cleanVinResults_distinct; [|rewrite Hps; apply NoDup_fst_map_to_list].
  rewrite Hst. apply list_to_map_to_list.
Qed.

(** X4: a cleaned spec is a fixed point of the normalizer: written back as
    a list of [{Variable, Value}] pairs and normalized again, it is
    unchanged. *)
Theorem cleanVinResults_idempotent (l : list RawAttribute) :
  cleanVinResults (to_attributes (cleanVinResults l)) = cleanVinResults l.
Proof.
  apply cleanVinResults_to_attributes.
  - apply cleanVinResults_proto.
  - apply cleanVinResults_meaningful.
Qed.

Lemma size_list_to_map_le (ps : list (string * string)) :
  (size (list_to_map ps : gmap string string) ≤ length ps)%nat.
Proof.
  induction ps as [|[k v] ps IH]; [done|].
  change (size (<[k:=v]> (list_to_map ps : gmap string string))
          ≤ S (length ps))%nat.
  rewrite map_size_insert. destruct (_ !! k); unfold id; lia.
Qed.

(** X5: a cleaned spec has at most as many keys as the list has meaningful
    pairs, hence at most as many as the list has pairs; when the variables
    of the meaningful pairs are pairwise distinct, it has exactly as many
    keys as there are meaningful pairs whose variable is not "__proto__". *)
Theorem cleanVinResults_size (l : list RawAttribute) :
  (size (cleanVinResults l) ≤ length (meaningful_pairs l))%nat
  ∧ (size (cleanVinResults l) ≤ length l)%nat
  ∧ (NoDup (meaningful_pairs l).*1 →
     size (cleanVinResults l)
     = length (filter (λ kv, kv.1 ≠ "__proto__") (meaningful_pairs l))).
Proof.
  assert (size (cleanVinResults l) ≤ length (meaningful_pairs l))%nat as Hle.
  { rewrite cleanVinResults_list_to_map.
    etrans; [apply size_list_to_map_le|]. rewrite length_reverse.
    apply length_filter. }
  split; [done|]. split.
  - pose proof (length_meaningful_pairs l). lia.
  - intros Hnd. rewrite (cleanVinResults_distinct l Hnd).
    apply map_size_list_to_map. by apply stored_pairs_NoDup.
Qed.

(** ** Failures of the upstream client *)

Lemma fetchJSON_result {A} (endpoint : Endpoint A) (url : string) :
  requests (fetchJSON endpoint url) = [url]
  ∧ (∀ e, result (fetchJSON endpoint url) = Raised e
          ↔ fetch_error (endpoint url) = Some e)
  ∧ (∀ b, result (fetchJSON endpoint url) = Returned b
          ↔ ∃ r, endpoint url = Resolved r ∧ ok r = true ∧ b = body r).
Proof.
  rewrite fetchJSON_run. cbn [requests result]. split; [done|].
  destruct (endpoint url) as [e'|r]; cbn [fetch_error].
  - split; [intros e; split; congruence|].
    intros b. split; [done|]. by intros (r & ? & _).
  - destruct (ok r) eqn:Hok.
    + split; [intros e; split; congruence|].
      intros b. split; [intros [= <-]; by exists r|].
      intros (r' & [= <-] & _ & ->). done.
    + split; [intros e; split; congruence|].
      intros b. split; [done|]. intros (r' & [= <-] & ? & _). congruence.
Qed.

Lemma clean_field_lookup (results : list RawAttribute) (k : string) :
  clean_field (cleanVinResults results !! k).
Proof.
  intros s Hs. apply cleanVinResults_meaningful in Hs.
  apply meaningful_Some in Hs as (s' & [= <-] & ? & ?). done.
Qed.

(** ** [decode-vin], further *)

(** X6: [decode-vin] issues the decode request and no other; it raises
    exactly when that call fails (a rejected promise, or a status outside
    200-299, reported as "NHTSA API error: <status>"), with that error, and
    returns otherwise. *)
Theorem decode_vin_fails_with_upstream (now : string) (up : Upstream)
    (vin : string) :
  requests (decode_vin now up vin) = [decodeUrl vin]
  ∧ (∀ e, result (decode_vin now up vin) = Raised e
          ↔ fetch_error (vpic_decodevin up (decodeUrl vin)) = Some e)
  ∧ ((∃ out, result (decode_vin now up vin) = Returned out)
     ↔ fetch_error (vpic_decodevin up (decodeUrl vin)) = None).
Proof.
  unfold decode_vin. fold (decodeUrl vin). rewrite fetchJSON_run.
  destruct (vpic_decodevin up (decodeUrl vin)) as [e'|r]; cbn [fetch_error].
  - rewrite bind_Raised. cbn [requests result]. split; [done|].
    split; [intros e; split; congruence|].
    split; [by intros [out ?]|done].
  - destruct (ok r).
    + rewrite bind_Returned. cbn [requests result]. split; [done|].
      split; [intros e; split; done|]. split; [done|]. intros _. by eexists.
    + rewrite bind_Raised. cbn [requests result]. split; [done|].
      split; [intros e; split; congruence|].
      split; [by intros [out ?]|done].
Qed.

(** X7: in a result of [decode-vin], the error message and every vehicle,
    engine, manufacturer and safety field is absent or a non-empty string
    different from "Not Applicable": the placeholders of the upstream
    service never reach the result. *)
Theorem decode_vin_fields_clean (now : string) (up : Upstream) (vin : string)
    (out : DecodeOutput) :
  result (decode_vin now up vin) = Returned out →
  Forall clean_field (decode_fields out).
Proof.
  unfold decode_vin. rewrite fetchJSON_run.
  destruct (vpic_decodevin up _) as [e'|r]; [done|].
  destruct (ok r); [|done]. rewrite bind_Returned. intros [= <-].
  unfold decode_fields.
  cbn [d_errorMessage d_vehicle d_engine d_manufacturer d_safety
       v_make v_model v_year v_trim v_bodyClass v_vehicleType v_doors
       e_displacement e_cylinders e_fuelType e_horsepower
       m_name m_plantCity m_plantCountry s_airbags s_abs].
  repeat (apply Forall_cons; split; [apply clean_field_lookup|]).
  apply Forall_nil_2.
Qed.

(** ** [recalls-by-vin], further *)

(** The three ways a run of [recalls-by-vin] can go. *)
Lemma recalls_by_vin_cases (now : string) (up : Upstream) (vin : string) :
  (∃ e, fetch_error (vpic_decodevin up (decodeUrl vin)) = Some e
        ∧ recalls_by_vin now up vin = MkAsync [decodeUrl vin] (Raised e))
  ∨ (∃ r, vpic_decodevin up (decodeUrl vin) = Resolved r ∧ ok r = true
          ∧ identity_missing (cleanVinResults (decode_Results (body r)))
          ∧ recalls_by_vin now up vin =
              MkAsync [decodeUrl vin]
                (Returned
                   {| ro_vin := toUpperCase vin;
                      ro_error :=
                        Some "Could not decode VIN to get vehicle details";
                      ro_vehicle := None;
                      ro_recallCount := 0;
                      ro_recalls := [];
                      ro_fetchedAt := None |}))
  ∨ (∃ r make model year,
       vpic_decodevin up (decodeUrl vin) = Resolved r ∧ ok r = true
       ∧ cleanVinResults (decode_Results (body r)) !! "Make" = Some make
       ∧ cleanVinResults (decode_Results (body r)) !! "Model" = Some model
       ∧ cleanVinResults (decode_Results (body r)) !! "Model Year"
         = Some year).
Proof.
  destruct (vpic_decodevin up (decodeUrl vin)) as [e'|r] eqn:Hd.
  { left. exists e'. split; [done|].
    unfold recalls_by_vin. fold (decodeUrl vin).
    by rewrite fetchJSON_run, Hd, bind_Raised. }
  destruct (ok r) eqn:Hok.
  2:{ left. eexists. cbn [fetch_error]. rewrite Hok. split; [done|].
      unfold recalls_by_vin. fold (decodeUrl vin).
      by rewrite fetchJSON_run, Hd, Hok, bind_Raised. }
  right.
  destruct (cleanVinResults (decode_Results (body r)) !! "Make")
    as [make|] eqn:Hmake;
    [destruct (cleanVinResults (decode_Results (body r)) !! "Model")
       as [model|] eqn:Hmodel;
     [destruct (cleanVinResults (decode_Results (body r)) !! "Model Year")
        as [year|] eqn:Hyear|]|].
  { right. by exists r, make, model, year. }
  all: left; exists r; split; [done|]; split; [done|].
  all: assert (identity_missing (cleanVinResults (decode_Results (body r))))
         as Hmiss by (unfold identity_missing; tauto).
  all: split; [done|].
  all: unfold recalls_by_vin; fold (decodeUrl vin).
  all: rewrite (fetchJSON_ok _ _ _ Hd Hok), bind_Returned.
  all: apply identity_missing_guard in Hmiss; by rewrite Hmiss.
Qed.

(** X8: every result of [recalls-by-vin], on whichever path it was built,
    lists the first 20 of the recalls it counts; and it either carries the
    error message, a [null] vehicle, no time stamp, a count of 0 and no
    recalls, or carries no error message, a vehicle description and a time
    stamp. *)
Theorem recalls_by_vin_result_shape (now : string) (up : Upstream)
    (vin : string) (out : RecallsOutput) :
  result (recalls_by_vin now up vin) = Returned out →
  length (ro_recalls out) = (20 `min` ro_recallCount out)%nat
  ∧ ((is_Some (ro_error out) ∧ ro_vehicle out = None
      ∧ ro_fetchedAt out = None ∧ ro_recallCount out = 0%nat
      ∧ ro_recalls out = [])
     ∨ (ro_error out = None ∧ is_Some (ro_vehicle out)
        ∧ ro_fetchedAt out = Some now)).
Proof.
  destruct (recalls_by_vin_cases now up vin)
    as [(e & _ & ->)|[(r & _ & _ & _ & ->)|
        (r & make & model & year & Hd & Hok & Hmake & Hmodel & Hyear)]].
  - done.
  - intros [= <-]. split; [done|]. left. cbn. eauto 10.
  - rewrite (recalls_by_vin_resolved now up vin r make model year) by done.
    cbv zeta. cbn [result].
    destruct (nhtsa_recalls up _) as [e|r2]; [done|]. intros [= <-].
    cbn [ro_recalls ro_recallCount ro_error ro_vehicle ro_fetchedAt].
    split; [by rewrite length_map, length_take|]. right. eauto.
Qed.

(** X9: [recalls-by-vin] issues one or two requests, and two exactly when
    the decode call succeeded and gave a make, a model and a model year. *)
Theorem recalls_by_vin_request_count (now : string) (up : Upstream)
    (vin : string) :
  (length (requests (recalls_by_vin now up vin)) = 1%nat
   ∨ length (requests (recalls_by_vin now up vin)) = 2%nat)
  ∧ (length (requests (recalls_by_vin now up vin)) = 2%nat ↔
     ∃ r make model year,
       vpic_decodevin up (decodeUrl vin) = Resolved r ∧ ok r = true
       ∧ cleanVinResults (decode_Results (body r)) !! "Make" = Some make
       ∧ cleanVinResults (decode_Results (body r)) !! "Model" = Some model
       ∧ cleanVinResults (decode_Results (body r)) !! "Model Year"
         = Some year).
Proof.
  destruct (recalls_by_vin_cases now up vin)
    as [(e & He & ->)|[(r & Hd & Hok & Hmiss & ->)|
        (r & make & model & year & Hd & Hok & Hmake & Hmodel & Hyear)]].
  - cbn [requests length]. split; [by left|]. split; [done|].
    intros (r & ? & ? & ? & Hd & Hok & _). rewrite Hd in He.
    cbn [fetch_error] in He. by rewrite Hok in He.
  - cbn [requests length]. split; [by left|]. split; [done|].
    intros (r' & ? & ? & ? & Hd' & _ & ? & ? & ?).
    rewrite Hd in Hd'. injection Hd' as <-.
    destruct Hmiss as [?|[?|?]]; congruence.
  - rewrite (recalls_by_vin_resolved now up vin r make model year) by done.
    cbv zeta. cbn [requests length]. split; [by right|].
    split; [|done]. intros _. by exists r, make, model, year.
Qed.

(** X10: [recalls-by-vin] raises in two cases only, with the error of the
    failed call: the decode call fails, or the identity is resolved and the
    promise of the recall [fetch] is rejected (a recall response with a
    status outside 200-299 is not an error, a rejected promise is). *)
Theorem recalls_by_vin_raises_iff (now : string) (up : Upstream)
    (vin : string) (e : JsError) :
  result (recalls_by_vin now up vin) = Raised e ↔
  fetch_error (vpic_decodevin up (decodeUrl vin)) = Some e
  ∨ ∃ r make model year,
      vpic_decodevin up (decodeUrl vin) = Resolved r ∧ ok r = true
      ∧ cleanVinResults (decode_Results (body r)) !! "Make" = Some make
      ∧ cleanVinResults (decode_Results (body r)) !! "Model" = Some model
      ∧ cleanVinResults (decode_Results (body r)) !! "Model Year" = Some year
      ∧ nhtsa_recalls up
          (recallUrl (toLowerCase make) (toLowerCase model) year)
        = Rejected e.
Proof.
  destruct (recalls_by_vin_cases now up vin)
    as [(e' & He & ->)|[(r & Hd & Hok & Hmiss & ->)|
        (r & make & model & year & Hd & Hok & Hmake & Hmodel & Hyear)]].
  - cbn [result]. split.
    + intros [= <-]. by left.
    + intros [?|(r & ? & ? & ? & Hd & Hok & _)]; [congruence|].
      rewrite Hd in He. cbn [fetch_error] in He. by rewrite Hok in He.
  - cbn [result]. split; [done|].
    intros [He|(r' & ? & ? & ? & Hd' & _ & ? & ? & ? & _)].
    + rewrite Hd in He. cbn [fetch_error] in He. by rewrite Hok in He.
    + rewrite Hd in Hd'. injection Hd' as <-.
      destruct Hmiss as [?|[?|?]]; congruence.
  - rewrite (recalls_by_vin_resolved now up vin r make model year) by done.
    cbv zeta. cbn [result]. split.
    + destruct (nhtsa_recalls up _) as [e'|r2] eqn:Hr; [|done].
      intros [= <-]. right. by exists r, make, model, year.
    + intros [He|(r' & make' & model' & year' & Hd' & _ & Hmake' & Hmodel'
                  & Hyear' & Hrej)].
      * rewrite Hd in He. cbn [fetch_error] in He. by rewrite Hok in He.
      * rewrite Hd in Hd'. injection Hd' as <-.
        assert (make' = make) as -> by congruence.
        assert (model' = model) as -> by congruence.
        assert (year' = year) as -> by congruence.
        by rewrite Hrej.
Qed.

(** ** [models] *)

(** X11: [models] issues one request; it raises exactly when that call
    fails, with its error; otherwise it returns the model name of every
    upstream row, in upstream order and without any cap, the count being the
    number of names; a response without a [Results] member gives no names
    and a count of 0. *)
Theorem models_lists_every_row (now : string) (up : Upstream) (make : string) :
  let url := NHTSA_VPIC +:+ "/GetModelsForMake/" +:+ encodeURIComponent make
             +:+ "?format=json" in
  requests (models now up make) = [url]
  ∧ (∀ e, result (models now up make) = Raised e
          ↔ fetch_error (vpic_models up url) = Some e)
  ∧ (∀ r, vpic_models up url = Resolved r → ok r = true →
       result (models now up make) =
         Returned {| mo_make := make;
                     mo_modelCount :=
                       length (default [] (models_Results (body r)));
                     mo_models :=
                       Model_Name <$> default [] (models_Results (body r));
                     mo_fetchedAt := now |})
  ∧ (∀ out, result (models now up make) = Returned out →
       mo_modelCount out = length (mo_models out)).
Proof.
  intros url. unfold models. fold url. rewrite fetchJSON_run.
  destruct (vpic_models up url) as [e'|r]; cbn [fetch_error].
  - rewrite bind_Raised. cbn [requests result]. split; [done|].
    split; [intros e; split; congruence|]. done.
  - destruct (ok r) eqn:Hok.
    + rewrite bind_Returned. cbn [requests result app]. split; [done|].
      split; [intros e; split; done|]. split.
      * intros r' [= <-] _.
        destruct (models_Results (body r)) as [rows|]; [|done].
        cbn [fmap option_fmap option_map default from_option result mret
             Async_ret].
        unfold id. by rewrite length_map, map_map.
      * intros out [= <-]. cbn [mo_modelCount mo_models].
        by rewrite length_map.
    + rewrite bind_Raised. cbn [requests result]. split; [done|].
      split; [intros e; split; congruence|].
      split; [|done]. intros r' [= <-] ?. congruence.
Qed.

(** ** [complaints], further *)

(** X12: in every result of [complaints], the list holds the first 20 of
    the complaints counted, and no summary is longer than 500 characters. *)
Theorem complaints_result_bounds (now : string) (up : Upstream)
    (make model : string) (year : Z) (out : ComplaintsOutput) :
  result (complaints now up make model year) = Returned out →
  length (co_complaints out) = (20 `min` co_complaintCount out)%nat
  ∧ ∀ c s, c ∈ co_complaints out → cr_summary c = Some s →
           (String.length s ≤ 500)%nat.
Proof.
  rewrite complaints_run. cbv zeta. cbn [result].
  destruct (nhtsa_complaints up _) as [e|r]; [done|].
  destruct (ok r); [|done]. intros [= <-].
  cbn [co_complaints co_complaintCount]. split.
  - by rewrite length_map, length_take.
  - intros c s Hc Hs.
    change (map complaint_record ?l) with (complaint_record <$> l) in Hc.
    apply list_elem_of_fmap in Hc as (c0 & -> & _).
    cbn [complaint_record cr_summary] in Hs.
    destruct (summary c0) as [s0|]; [|done].
    cbn [fmap option_fmap option_map] in Hs.
    assert (s = substring0 500 s0) as -> by congruence.
    rewrite substring0_length. lia.
Qed.

(** X13: [complaints] does not degrade a failed upstream call: it raises
    exactly when the call fails, with its error; when the call succeeds, the
    count is the length of the whole upstream list (0 without a [results]
    member), whatever the cap on the list returned. *)
Theorem complaints_fails_with_upstream (now : string) (up : Upstream)
    (make model : string) (year : Z) :
  let url := NHTSA_COMPLAINTS +:+ "?make=" +:+ encodeURIComponent make
             +:+ "&model=" +:+ encodeURIComponent model
             +:+ "&modelYear=" +:+ pretty year in
  (∀ e, result (complaints now up make model year) = Raised e
        ↔ fetch_error (nhtsa_complaints up url) = Some e)
  ∧ (∀ r, nhtsa_complaints up url = Resolved r → ok r = true →
       ∃ out, result (complaints now up make model year) = Returned out
              ∧ co_complaintCount out
                = length (default [] (complaint_results (body r)))).
Proof.
  intros url. rewrite complaints_run. cbv zeta. fold url. cbn [result].
  destruct (nhtsa_complaints up url) as [e'|r]; cbn [fetch_error].
  - split; [intros e; split; congruence|]. done.
  - destruct (ok r) eqn:Hok.
    + split; [intros e; split; done|].
      intros r' [= <-] _. by eexists.
    + split; [intros e; split; congruence|].
      intros r' [= <-] ?. congruence.
Qed.

(** ** [overview] *)

(** X14: [overview] issues the [GetAllMakes] request and no other; it
    raises exactly when that call fails, with its error; otherwise
    [totalMakes] is the number of upstream rows, 0 when the response has no
    [Results] member. *)
Theorem overview_counts_makes (now : string) (vpic_makes : Endpoint MakesBody) :
  let url := NHTSA_VPIC +:+ "/GetAllMakes?format=json" in
  requests (overview now vpic_makes) = [url]
  ∧ (∀ e, result (overview now vpic_makes) = Raised e
          ↔ fetch_error (vpic_makes url) = Some e)
  ∧ (∀ r, vpic_makes url = Resolved r → ok r = true →
       ∃ out, result (overview now vpic_makes) = Returned out
              ∧ ov_totalMakes out
                = length (default [] (makes_Results (body r)))).
Proof.
  intros url. unfold overview. fold url. rewrite fetchJSON_run.
  destruct (vpic_makes url) as [e'|r]; cbn [fetch_error].
  - rewrite bind_Raised. cbn [requests result]. split; [done|].
    split; [intros e; split; congruence|]. done.
  - destruct (ok r) eqn:Hok.
    + rewrite bind_Returned. cbn [requests result app]. split; [done|].
      split; [intros e; split; done|].
      intros r' [= <-] _. eexists. split; [done|]. cbn [ov_totalMakes].
      by destruct (makes_Results (body r)).
    + rewrite bind_Raised. cbn [requests result]. split; [done|].
      split; [intros e; split; congruence|].
      intros r' [= <-] ?. congruence.
Qed.

(** ** [compare], further *)

Lemma compare_subject_Raised (up : Upstream) (vin : string) (e : JsError) :
  result (compare_subject up vin) = Raised e
  ↔ fetch_error (vpic_decodevin up (decodeUrl vin)) = Some e.
Proof.
  rewrite compare_subject_run.
  destruct (vpic_decodevin up (decodeUrl vin)) as [e'|r]; cbn [fetch_error].
  - cbn [result]. split; congruence.
  - destruct (ok r); cbn [result]; split; congruence.
Qed.

Lemma compare_subject_requests (up : Upstream) (vin : string) :
  (requests (compare_subject up vin) = [decodeUrl vin]
   ∧ ∃ e, result (compare_subject up vin) = Raised e)
  ∨ (requests (compare_subject up vin) = [decodeUrl vin; recallsByVinUrl vin]
     ∧ ∃ row, result (compare_subject up vin) = Returned row).
Proof.
  rewrite compare_subject_run.
  destruct (vpic_decodevin up (decodeUrl vin)) as [e'|r]; [left; eauto|].
  destruct (ok r); [right|left]; eauto.
Qed.

Lemma length_concat_bounds {A} (ls : list (list A)) (lo hi : nat) :
  Forall (λ l, lo ≤ length l ≤ hi)%nat ls →
  (lo * length ls ≤ length (concat ls) ≤ hi * length ls)%nat.
Proof.
  induction 1 as [|l ls Hl _ IH]; cbn [concat length]; [lia|].
  rewrite length_app. lia.
Qed.

(** X15: [compare] returns if and only if the decode call of every subject
    succeeds, whatever the recall lookups answer and however many subjects
    there are; when it raises, the error is that of the decode call of a
    subject. *)
Theorem compare_returns_iff (now : string) (ups : nat → Upstream)
    (vins : list string) :
  ((∃ out, result (compare now ups vins) = Returned out) ↔
   ∀ i vin, vins !! i = Some vin →
            fetch_error (vpic_decodevin (ups i) (decodeUrl vin)) = None)
  ∧ (∀ e, result (compare now ups vins) = Raised e →
       ∃ i vin, vins !! i = Some vin
                ∧ fetch_error (vpic_decodevin (ups i) (decodeUrl vin))
                  = Some e).
Proof.
  assert (∀ e, result (compare now ups vins) = Raised e →
            ∃ i vin, vins !! i = Some vin
                     ∧ fetch_error (vpic_decodevin (ups i) (decodeUrl vin))
                       = Some e) as Hraised.
  { intros e. rewrite compare_run. cbv zeta. cbn [result].
    destruct (all_returned _) as [rows|e'] eqn:Hres; [done|].
    intros [= <-]. apply all_returned_Raised in Hres.
    apply list_elem_of_fmap in Hres as (p & Hp & Hin).
    apply elem_of_lookup_imap in Hin as (i & v & -> & Hv).
    exists i, v. split; [done|]. by apply compare_subject_Raised. }
  split; [|exact Hraised]. split.
  - intros [out Hret] i vin Hvin.
    destruct (compare_Returned_lookup _ _ _ _ _ _ Hret Hvin)
      as (row & _ & Hsub).
    apply compare_subject_Returned in Hsub as (r & Hr & Hok & _).
    rewrite Hr. cbn [fetch_error]. by rewrite Hok.
  - intros Hall.
    destruct (result (compare now ups vins)) as [out|e] eqn:Hres;
      [by exists out|].
    destruct (Hraised e eq_refl) as (i & vin & Hvin & He).
    rewrite (Hall i vin Hvin) in He. done.
Qed.

(** X16: [compare] issues the decode request of every subject even when
    the decode of another subject fails (nothing is cancelled); it issues
    between one and two requests for each subject, and exactly two for each
    when it returns. *)
Theorem compare_request_count (now : string) (ups : nat → Upstream)
    (vins : list string) :
  (∀ vin, vin ∈ vins → decodeUrl vin ∈ requests (compare now ups vins))
  ∧ (length vins ≤ length (requests (compare now ups vins)))%nat
  ∧ (length (requests (compare now ups vins)) ≤ 2 * length vins)%nat
  ∧ ((∃ out, result (compare now ups vins) = Returned out) →
     length (requests (compare now ups vins)) = (2 * length vins)%nat).
Proof.
  rewrite compare_run. cbv zeta. cbn [requests result].
  set (ps := imap (λ i vin, compare_subject (ups i) vin) vins).
  assert (length (map requests ps) = length vins) as Hlen.
  { unfold ps. by rewrite length_map, length_imap. }
  assert (Forall (λ l, 1 ≤ length l ≤ 2)%nat (map requests ps)) as Hbounds.
  { apply Forall_forall. intros l Hl.
    apply list_elem_of_fmap in Hl as (p & -> & Hp).
    apply elem_of_lookup_imap in Hp as (i & v & -> & _).
    destruct (compare_subject_requests (ups i) v) as [[-> _]|[-> _]];
      cbn [length]; lia. }
  apply length_concat_bounds in Hbounds. rewrite Hlen in Hbounds.
  split; [|split; [lia|split; [lia|]]].
  - intros vin [i Hvin]%list_elem_of_lookup.
    apply list_elem_of_In, in_concat.
    exists (requests (compare_subject (ups i) vin)). split.
    + apply list_elem_of_In.
      apply (list_elem_of_fmap_2 requests).
      by apply (elem_of_lookup_imap_2 (λ i v, compare_subject (ups i) v)
                  _ _ _ Hvin).
    + apply list_elem_of_In.
      destruct (compare_subject_requests (ups i) vin) as [[-> _]|[-> _]];
        left.
  - intros [out Hout].
    destruct (all_returned (map result ps)) as [rows|e] eqn:Hres; [|done].
    apply all_returned_Returned in Hres.
    assert (Forall (λ l, 2 ≤ length l ≤ 2)%nat (map requests ps)) as Htwo.
    { apply Forall_forall. intros l Hl.
      apply list_elem_of_fmap in Hl as (p & -> & Hp).
      assert (result p ∈ map result ps) as Hrp
        by (by apply (list_elem_of_fmap_2 result)).
      rewrite Hres in Hrp. apply list_elem_of_fmap in Hrp as (row & Hrow & _).
      apply elem_of_lookup_imap in Hp as (i & v & -> & _).
      destruct (compare_subject_requests (ups i) v)
        as [[_ [e He]]|[-> _]]; [congruence|]. cbn [length]. lia. }
    apply length_concat_bounds in Htwo. rewrite Hlen in Htwo. lia.
Qed.

(** The row of a subject in a result of [compare]. *)
Lemma compare_row (now : string) (ups : nat → Upstream)
    (vins : list string) (out : CompareOutput) (j : nat) (vin : string) :
  result (compare now ups vins) = Returned out →
  vins !! j = Some vin →
  ∃ r, vpic_decodevin (ups j) (decodeUrl vin) = Resolved r ∧ ok r = true
       ∧ comparison out !! j
         = Some (comparison_row (toUpperCase vin)
                   (cleanVinResults (decode_Results (body r)))
                   (recall_count_of
                      (nhtsa_recalls (ups j) (recallsByVinUrl vin)))).
Proof.
  intros Hret Hvin.
  destruct (compare_Returned_lookup _ _ _ _ _ _ Hret Hvin)
    as (row & Hrow & Hsub).
  apply compare_subject_Returned in Hsub as (r & Hr & Hok & ->).
  by exists r.
Qed.

(** X17: the [engine] of a row is built from the displacement and the
    number of cylinders of the cleaned spec even when the spec lacks them:
    an absent one is printed as "undefined", so a subject with neither has
    the engine "undefinedL undefined-cyl". *)
Theorem compare_engine_of_missing_fields (now : string)
    (ups : nat → Upstream) (vins : list string) (out : CompareOutput)
    (j : nat) (vin : string) (r : Response DecodeBody) :
  result (compare now ups vins) = Returned out →
  vins !! j = Some vin →
  vpic_decodevin (ups j) (decodeUrl vin) = Resolved r →
  let specs := cleanVinResults (decode_Results (body r)) in
  ∃ row,
    comparison out !! j = Some row
    ∧ row_engine row
      = default "undefined" (specs !! "Displacement (L)") +:+ "L "
        +:+ default "undefined" (specs !! "Engine Number of Cylinders")
        +:+ "-cyl"
    ∧ (specs !! "Displacement (L)" = None →
       specs !! "Engine Number of Cylinders" = None →
       row_engine row = "undefinedL undefined-cyl").
Proof.
  intros Hret Hvin Hr specs.
  destruct (compare_row _ _ _ _ _ _ Hret Hvin) as (r' & Hr' & _ & Hrow).
  rewrite Hr in Hr'. injection Hr' as <-.
  eexists. split; [exact Hrow|]. split; [done|].
  intros Hd Hc. cbn [comparison_row row_engine]. fold specs.
  by rewrite Hd, Hc.
Qed.

(** X18: the [recallCount] of a row is the number of rows of the whole
    recall response, without the cap of 20 that [recalls-by-vin] puts on its
    list; it is 0 when the response has no [results] member. *)
Theorem compare_recallCount_uncapped (now : string) (ups : nat → Upstream)
    (vins : list string) (out : CompareOutput) (j : nat) (vin : string)
    (recallResponse : Response RecallBody) :
  result (compare now ups vins) = Returned out →
  vins !! j = Some vin →
  nhtsa_recalls (ups j) (recallsByVinUrl vin) = Resolved recallResponse →
  ok recallResponse = true →
  ∃ row,
    comparison out !! j = Some row
    ∧ row_recallCount row
      = length (default [] (recall_results (body recallResponse))).
Proof.
  intros Hret Hvin Hrecall Hok.
  destruct (compare_row _ _ _ _ _ _ Hret Hvin) as (r & _ & _ & Hrow).
  eexists. split; [exact Hrow|].
  cbn [comparison_row row_recallCount]. rewrite Hrecall.
  cbn [recall_count_of]. rewrite Hok.
  by destruct (recall_results (body recallResponse)).
Qed.

(** X19: in every row of a result of [compare], the year, make, model,
    trim, body class, fuel type, manufacturer and plant country are absent
    or non-empty strings different from "Not Applicable". *)
Theorem compare_rows_clean (now : string) (ups : nat → Upstream)
    (vins : list string) (out : CompareOutput) (row : ComparisonRow) :
  result (compare now ups vins) = Returned out →
  row ∈ comparison out →
  Forall clean_field (row_fields row).
Proof.
  intros Hret [j Hj]%list_elem_of_lookup.
  assert (is_Some (vins !! j)) as [vin Hvin].
  { apply lookup_lt_is_Some.
    rewrite <- (compare_Returned_length _ _ _ _ Hret).
    by apply lookup_lt_is_Some. }
  destruct (compare_row _ _ _ _ _ _ Hret Hvin) as (r & _ & _ & Hrow).
  rewrite Hj in Hrow. injection Hrow as ->.
  unfold row_fields.
  cbn [comparison_row row_year row_make row_model row_trim row_bodyClass
       row_fuelType row_manufacturer row_plantCountry].
  repeat (apply Forall_cons; split; [apply clean_field_lookup|]).
  apply Forall_nil_2.
Qed.

(** ** [analytics-transactions] *)

Lemma slice0_nonneg {A} (n : Z) (a : list A) :
  0 ≤ n → slice0 n a = take (Z.to_nat n) a.
Proof.
  intros Hn. unfold slice0.
  destruct (Z.ltb_spec n 0) as [?|_]; [lia|].
  destruct (Z.le_gt_cases n (Z.of_nat (length a))) as [Hle|Hgt].
  - by rewrite Z.min_l.
  - rewrite Z.min_r, Nat2Z.id by lia.
    rewrite firstn_all. symmetry. apply take_ge. lia.
Qed.

Lemma slice0_neg {A} (n : Z) (a : list A) :
  n < 0 → slice0 n a = take (length a - Z.to_nat (- n)) a.
Proof.
  intros Hn. unfold slice0.
  destruct (Z.ltb_spec n 0) as [_|?]; [|lia]. f_equal. lia.
Qed.

(** X20: without a payment tracker, [analytics-transactions] returns no
    transactions.  With one, it returns a prefix of the transactions that
    [getAllTransactions] gives: the first 50 when no limit is given, the
    first [n] for a limit [n >= 0], and all but the last [-n] for a negative
    limit [n]; an error of [getAllTransactions] is raised as it is. *)
Theorem analytics_transactions_limit {Tracker Transaction : Type}
    (getAllTransactions : Tracker → option Z → Async (list Transaction)) :
  (∀ windowMs limit,
     analytics_transactions getAllTransactions None windowMs limit
     = MkAsync [] (Returned {| transactions := [] |}))
  ∧ (∀ tracker windowMs limit rq txs,
       getAllTransactions tracker windowMs = MkAsync rq (Returned txs) →
       ∃ out,
         analytics_transactions getAllTransactions (Some tracker) windowMs
           limit = MkAsync rq (Returned out)
         ∧ (limit = None → transactions out = take 50 txs)
         ∧ (∀ n, limit = Some n → 0 ≤ n →
                 transactions out = take (Z.to_nat n) txs)
         ∧ (∀ n, limit = Some n → n < 0 →
                 transactions out = take (length txs - Z.to_nat (- n)) txs)
         ∧ ∃ rest, txs = transactions out ++ rest)
  ∧ (∀ tracker windowMs limit rq e,
       getAllTransactions tracker windowMs = MkAsync rq (Raised e) →
       analytics_transactions getAllTransactions (Some tracker) windowMs
         limit = MkAsync rq (Raised e)).
Proof.
  split; [done|]. split.
  - intros tracker windowMs limit rq txs Hg.
    unfold analytics_transactions. rewrite Hg, bind_Returned.
    cbn [requests result mret Async_ret]. rewrite app_nil_r.
    eexists. split; [reflexivity|]. cbn [transactions].
    split; [|split; [|split]].
    + intros ->. by rewrite slice0_nonneg.
    + intros n -> Hn. by rewrite slice0_nonneg.
    + intros n -> Hn. by rewrite slice0_neg.
    + unfold slice0. eexists. symmetry. apply take_drop.
  - intros tracker windowMs limit rq e Hg.
    unfold analytics_transactions. by rewrite Hg, bind_Raised.
Qed.

End Model.

#[local] Existing Instance ascii_builtins.

(** ** The properties on the sample data *)

Lemma decode_vin_reports_validity_unresolved :
  ∃ out,
    decode_vin sample_now unresolved_up sample_vin
    = MkAsync [decodeUrl sample_vin] (Returned out)
    ∧ (d_isValid out = true ↔
         cleanVinResults unresolved_Results !! "Error Code" = Some "0")
    ∧ d_errorMessage out = cleanVinResults unresolved_Results !! "Error Text"
    ∧ (cleanVinResults unresolved_Results !! "Error Code" ≠ Some "0" →
         d_isValid out = false).
Proof.
  apply (decode_vin_reports_validity sample_now unresolved_up sample_vin
           (MkResponse 200 {| decode_Results := unresolved_Results |}));
    reflexivity.
Defined.

Lemma recalls_by_vin_unresolved_identity_sample :
  recalls_by_vin sample_now unresolved_up sample_vin =
    MkAsync [decodeUrl sample_vin]
      (Returned {| ro_vin := toUpperCase sample_vin;
                   ro_error := Some "Could not decode VIN to get vehicle details";
                   ro_vehicle := None;
                   ro_recallCount := 0;
                   ro_recalls := [];
                   ro_fetchedAt := None |}).
Proof.
  apply (recalls_by_vin_unresolved_identity sample_now unresolved_up sample_vin
           (MkResponse 200 {| decode_Results := unresolved_Results |}));
    [reflexivity | reflexivity |].
  right. left. vm_compute. reflexivity.
Defined.

Lemma recalls_by_vin_recall_failure_sample :
  recalls_by_vin sample_now honda_up_recalls_down sample_vin =
    MkAsync [decodeUrl sample_vin;
             recallUrl (toLowerCase "HONDA") (toLowerCase "ACCORD") "2003"]
      (Returned {| ro_vin := toUpperCase sample_vin;
                   ro_error := None;
                   ro_vehicle := Some ("2003" +:+ " " +:+ "HONDA" +:+ " " +:+ "ACCORD");
                   ro_recallCount := 0;
                   ro_recalls := [];
                   ro_fetchedAt := Some sample_now |}).
Proof.
  apply (recalls_by_vin_recall_failure sample_now honda_up_recalls_down
           sample_vin (MkResponse 200 {| decode_Results := honda_Results |})
           "HONDA" "ACCORD" "2003"
           (MkResponse 503 {| recall_results := Some [] |}));
    vm_compute; reflexivity.
Defined.

Lemma lists_truncated_sample :
  (∃ out,
     result (recalls_by_vin sample_now honda_up sample_vin) = Returned out
     ∧ ro_recalls out = take 20 (map recall_record (sample_recall <$> seq 0 25))
     ∧ length (ro_recalls out) = 20%nat)
  ∧ (∃ out,
       result (complaints sample_now honda_up "Honda" "Accord" 2003)
       = Returned out
       ∧ co_complaints out
         = take 20 (map complaint_record (sample_complaint <$> seq 0 25))
       ∧ length (co_complaints out) = 20%nat).
Proof.
  destruct lists_truncated_after_normalization as (Hrecalls & Hcomplaints & _).
  split.
  - destruct (Hrecalls sample_now honda_up sample_vin
                (MkResponse 200 {| decode_Results := honda_Results |})
                "HONDA" "ACCORD" "2003"
                (MkResponse 200
                   {| recall_results := Some (sample_recall <$> seq 0 25) |}))
      as (out & Hout & Heq & _ & Hlen & _); try (vm_compute; reflexivity).
    exists out. split; [exact Hout|]. split; [exact Heq|].
    apply Hlen. vm_compute. lia.
  - destruct (Hcomplaints sample_now honda_up "Honda" "Accord" 2003
                (MkResponse 200
                   {| complaint_results :=
                        Some (sample_complaint <$> seq 0 25) |}))
      as (out & Hout & Heq & _ & Hlen & _); try (vm_compute; reflexivity).
    exists out. split; [exact Hout|]. split; [exact Heq|].
    apply Hlen. vm_compute. lia.
Defined.

Lemma recallCount_counts_untruncated_sample :
  ∃ out,
    result (recalls_by_vin sample_now honda_up sample_vin) = Returned out
    ∧ ro_recallCount out = 25%nat
    ∧ length (ro_recalls out) = 20%nat
    ∧ (length (ro_recalls out) < ro_recallCount out)%nat.
Proof.
  destruct (recallCount_counts_untruncated sample_now honda_up sample_vin
              (MkResponse 200 {| decode_Results := honda_Results |})
              "HONDA" "ACCORD" "2003"
              (MkResponse 200
                 {| recall_results := Some (sample_recall <$> seq 0 25) |}))
    as (out & Hout & Hcount & Hlen & Hlt); try (vm_compute; reflexivity).
  exists out. split; [exact Hout|]. split; [exact Hcount|].
  split; [exact Hlen|]. apply Hlt. vm_compute. lia.
Defined.

Lemma compare_isolates_recall_failure_sample :
  ∃ out,
    result (compare sample_now second_recalls_down sample_vins) = Returned out
    ∧ length (comparison out) = length sample_vins
    ∧ (∀ i vin, sample_vins !! i = Some vin →
         ∃ row, comparison out !! i = Some row
                ∧ row_vin row = toUpperCase vin)
    ∧ (∀ row, comparison out !! 1%nat = Some row →
              row_recallCount row = 0%nat)
    ∧ comparison out !! 1%nat
      = set_recallCount 0 <$> comparison sample_comparison !! 1%nat
    ∧ (∀ i, i ≠ 1%nat →
            comparison out !! i = comparison sample_comparison !! i).
Proof.
  apply (compare_isolates_recall_failure sample_now second_recalls_down
           (λ _, honda_up) sample_vins 1 sample_comparison).
  - intros [|[|i]] Hi; [reflexivity | contradiction | reflexivity].
  - reflexivity.
  - intros vin [= <-]. reflexivity.
  - vm_compute. reflexivity.
Defined.

Lemma compare_fails_on_decode_failure_sample :
  ∃ e,
    result (compare sample_now second_decode_down sample_vins) = Raised e
    ∧ ∃ i v, sample_vins !! i = Some v
             ∧ result (compare_subject (second_decode_down i) v) = Raised e.
Proof.
  apply (compare_fails_on_decode_failure sample_now second_decode_down
           sample_vins 1 "1HGCM82633A004353"
           (MkResponse 500 {| decode_Results := [] |}));
    reflexivity.
Defined.

Lemma compare_skips_identity_check_sample :
  let row :=
    comparison_row "1HGCM82633A004353" (cleanVinResults unresolved_Results) 3 in
  compare_subject unresolved_up "1HGCM82633A004353"
    = MkAsync [decodeUrl "1HGCM82633A004353";
               recallsByVinUrl "1HGCM82633A004353"] (Returned row)
  ∧ row_model row = None
  ∧ row_year row = None
  ∧ recallsByVinUrl "1HGCM82633A004353"
    ∈ requests (compare sample_now second_unresolved sample_vins)
  ∧ ∃ out,
      result (compare sample_now second_unresolved sample_vins) = Returned out
      ∧ comparison out !! 1%nat = Some row.
Proof.
  destruct (compare_skips_identity_check sample_now second_unresolved
              sample_vins 1 "1HGCM82633A004353"
              (MkResponse 200 {| decode_Results := unresolved_Results |}))
    as (Hrun & _ & _ & _ & _ & Hreq & Hrow & Hret).
  - reflexivity.
  - reflexivity.
  - reflexivity.
  - right. left. vm_compute. reflexivity.
  - split; [exact Hrun|]. split; [vm_compute; reflexivity|].
    split; [vm_compute; reflexivity|]. split; [exact Hreq|].
    destruct Hret as [out Hout].
    + intros [|[|[|i]]] v [= <-]; eexists; (split; [reflexivity|reflexivity]).
    + exists out. split; [exact Hout|]. by apply Hrow.
Defined.

Lemma case_normalization_sample :
  requests (recalls_by_vin sample_now honda_up "1hgcm82633a004352")
  = ["https://vpic.nhtsa.dot.gov/api/vehicles/decodevin/1HGCM82633A004352?format=json";
     "https://api.nhtsa.gov/recalls/recallsByVehicle?make=honda&model=accord&modelYear=2003"].
Proof.
  destruct (@case_normalization ascii_builtins)
    as (_ & _ & _ & _ & _ & _ & _ & _ & Hhonda & _).
  apply (Hhonda sample_now honda_up
           (MkResponse 200 {| decode_Results := honda_Results |}));
    vm_compute; reflexivity.
Defined.

Lemma cleanVinResults_spec_sample :
  cleanVinResults
    [attr "Make" (Some "HONDA"); attr "Trim" None; attr "Doors" (Some "");
     attr "Bus Type" (Some "Not Applicable"); attr "Make" (Some "ACURA");
     attr "Make" (Some "")] !! "Make"
  = Some "ACURA".
Proof.
  destruct (cleanVinResults_spec
              [attr "Make" (Some "HONDA"); attr "Trim" None;
               attr "Doors" (Some ""); attr "Bus Type" (Some "Not Applicable");
               attr "Make" (Some "ACURA"); attr "Make" (Some "")] "Make")
    as (_ & _ & _ & Hlast); [discriminate|].
  apply (Hlast [attr "Make" (Some "HONDA"); attr "Trim" None;
                attr "Doors" (Some ""); attr "Bus Type" (Some "Not Applicable")]
               [attr "Make" (Some "")] "ACURA");
    [reflexivity | discriminate | discriminate |].
  repeat constructor.
Defined.

(** ** The further properties on the sample data *)

Lemma cleanVinResults_Permutation_sample :
  cleanVinResults
    [attr "Make" (Some "HONDA"); attr "Trim" None; attr "Model" (Some "ACCORD")]
  = cleanVinResults
      [attr "Trim" None; attr "Make" (Some "HONDA"); attr "Model" (Some "ACCORD")].
Proof.
  apply cleanVinResults_Permutation.
  - apply (bool_decide_unpack _). vm_compute. exact I.
  - apply perm_swap.
Defined.

Lemma cleanVinResults_size_sample :
  size (cleanVinResults (attr "__proto__" (Some "HONDA") :: honda_Results))
  = 10%nat.
Proof.
  destruct (cleanVinResults_size
              (attr "__proto__" (Some "HONDA") :: honda_Results))
    as (_ & _ & Heq).
  rewrite Heq; [reflexivity|].
  apply (bool_decide_unpack _). vm_compute. exact I.
Defined.

Lemma decode_vin_fields_clean_sample :
  ∃ out,
    result (decode_vin sample_now honda_up sample_vin) = Returned out
    ∧ Forall clean_field (decode_fields out).
Proof.
  eexists. split; [reflexivity|].
  apply (decode_vin_fields_clean sample_now honda_up sample_vin).
  reflexivity.
Defined.

Lemma recalls_by_vin_result_shape_sample :
  ∃ out,
    result (recalls_by_vin sample_now honda_up sample_vin) = Returned out
    ∧ length (ro_recalls out) = (20 `min` ro_recallCount out)%nat
    ∧ ((is_Some (ro_error out) ∧ ro_vehicle out = None
        ∧ ro_fetchedAt out = None ∧ ro_recallCount out = 0%nat
        ∧ ro_recalls out = [])
       ∨ (ro_error out = None ∧ is_Some (ro_vehicle out)
          ∧ ro_fetchedAt out = Some sample_now)).
Proof.
  eexists. split; [reflexivity|].
  apply (recalls_by_vin_result_shape sample_now honda_up sample_vin).
  reflexivity.
Defined.

Lemma complaints_result_bounds_sample :
  ∃ out,
    result (complaints sample_now honda_up "Honda" "Accord" 2003)
    = Returned out
    ∧ length (co_complaints out) = (20 `min` co_complaintCount out)%nat
    ∧ ∀ c s, c ∈ co_complaints out → cr_summary c = Some s →
             (String.length s ≤ 500)%nat.
Proof.
  eexists. split; [reflexivity|].
  apply (complaints_result_bounds sample_now honda_up "Honda" "Accord" 2003).
  reflexivity.
Defined.

Lemma compare_engine_of_missing_fields_sample :
  ∃ out,
    result (compare sample_now second_unresolved sample_vins) = Returned out
    ∧ ∃ row, comparison out !! 1%nat = Some row
             ∧ row_engine row = "undefinedL undefined-cyl".
Proof.
  eexists. split; [reflexivity|].
  destruct (compare_engine_of_missing_fields sample_now second_unresolved
              sample_vins _ 1 "1HGCM82633A004353"
              (MkResponse 200 {| decode_Results := unresolved_Results |})
              eq_refl eq_refl eq_refl)
    as (row & Hrow & _ & Hundefined).
  exists row. split; [exact Hrow|]. apply Hundefined; reflexivity.
Defined.

Lemma compare_recallCount_uncapped_sample :
  ∃ out,
    result (compare sample_now (λ _, honda_up) sample_vins) = Returned out
    ∧ ∃ row, comparison out !! 0%nat = Some row
             ∧ row_recallCount row = 25%nat.
Proof.
  eexists. split; [reflexivity|].
  destruct (compare_recallCount_uncapped sample_now (λ _, honda_up)
              sample_vins _ 0 "1hgcm82633a004352"
              (MkResponse 200
                 {| recall_results := Some (sample_recall <$> seq 0 25) |})
              eq_refl eq_refl eq_refl eq_refl)
    as (row & Hrow & Hcount).
  exists row. split; [exact Hrow|exact Hcount].
Defined.

Lemma compare_rows_clean_sample :
  ∃ out row,
    result (compare sample_now second_unresolved sample_vins) = Returned out
    ∧ comparison out !! 1%nat = Some row
    ∧ Forall clean_field (row_fields row).
Proof.
  eexists. eexists. split; [reflexivity|]. split; [reflexivity|].
  apply (compare_rows_clean sample_now second_unresolved sample_vins _ _
           eq_refl).
  right. left.
Defined.

Lemma analytics_transactions_limit_sample :
  ∃ out,
    analytics_transactions
      (λ (_ : unit) (_ : option Z), MkAsync [] (Returned [1; 2; 3; 4; 5]))
      (Some tt) None (Some (-2))
    = MkAsync [] (Returned out)
    ∧ transactions out = [1; 2; 3].
Proof.
  destruct (analytics_transactions_limit
              (λ (_ : unit) (_ : option Z),
                 MkAsync [] (Returned [1; 2; 3; 4; 5])))
    as (_ & Hsome & _).
  destruct (Hsome tt None (Some (-2)) [] [1; 2; 3; 4; 5] eq_refl)
    as (out & Hout & _ & _ & Hneg & _).
  exists out. split; [exact Hout|]. by rewrite (Hneg (-2) eq_refl).
Defined.
